(** * Momentum-contrast training core and linear evaluation head

    A shallow embedding of [model/model.py] (classes [MoCov1], [MoCov2]) and
    of [linear.py] (class [Net], function [train_val]), with the properties
    of the momentum update, the negative queue, the batch shuffle, the
    contrastive loss and the symmetric training step.

    Conventions of the embedding:
    - tensor elements are values of an abstract scalar type with the
      arithmetic operators the code applies to them; nothing is assumed
      about these operators, so every statement holds for floating point
      as well as for exact arithmetic;
    - a parameter tensor is the list of its elements; a batch (N x C) is
      the list of its N rows; the queue buffer (C x K) is the list of its
      K columns;
    - a tensor is rectangular: the rows of a batch have one length, and
      so have the columns of the queue; statements say so where the code
      depends on it ([of_width]), and the slice assignment of the enqueue
      compares the embedding axis of its source with that of the queue,
      column by column;
    - the encoder is a function of the parameter values and the input
      batch: its value is what a call returns when it returns; what is
      required of a call is a hypothesis of the statement ([embeds]);
    - random draws ([torch.randperm], [torch.randn], dropout masks) are
      arguments of the functions that draw them;
    - Python exceptions are values of [exn]; a method that mutates [self]
      returns the outcome together with the state it leaves behind. *)

From Stdlib Require Import QArith Reals Lra.
From stdpp Require Import base list sorting strings.

(** ** Exceptions and outcomes *)

Inductive exn : Type :=
  | AssertionError
  | ZeroDivisionError
  | IndexError
  | RuntimeError
  | TypeError
  | ValueError.

Inductive result (A : Type) : Type :=
  | Ok (a : A)
  | Raise (e : exn).
Arguments Ok {A} a.
Arguments Raise {A} e.

Global Instance result_ret : MRet result := λ A a, Ok a.
Global Instance result_bind : MBind result :=
  λ A B f r, match r with Ok a => f a | Raise e => Raise e end.

Definition is_ok {A} (r : result A) : bool :=
  match r with Ok _ => true | Raise _ => false end.

(** ** Scalars *)

Class Scalar (F : Type) : Type := {
  s_zero : F;
  s_one : F;
  s_add : F → F → F;
  s_sub : F → F → F;
  s_mul : F → F → F;
  s_div : F → F → F;
  s_opp : F → F;
  s_of_nat : nat → F
}.

Class Elementary (F : Type) : Type := {
  s_exp : F → F;
  s_log : F → F
}.

Declare Scope scalar_scope.
Delimit Scope scalar_scope with sc.
Infix "+" := s_add : scalar_scope.
Infix "-" := s_sub : scalar_scope.
Infix "*" := s_mul : scalar_scope.
Infix "/" := s_div : scalar_scope.
Notation "- x" := (s_opp x) : scalar_scope.

Global Instance Q_scalar : Scalar Q := {|
  s_zero := 0%Q; s_one := 1%Q;
  s_add := Qplus; s_sub := Qminus; s_mul := Qmult; s_div := Qdiv;
  s_opp := Qopp; s_of_nat := λ n, inject_Z (Z.of_nat n)
|}.

Global Instance R_scalar : Scalar R := {|
  s_zero := 0%R; s_one := 1%R;
  s_add := Rplus; s_sub := Rminus; s_mul := Rmult; s_div := Rdiv;
  s_opp := Ropp; s_of_nat := INR
|}.

Global Instance R_elementary : Elementary R := {|
  s_exp := exp; s_log := ln
|}.

(** ** Tensors, parameters and the state of a momentum-contrast model *)

(** A parameter tensor, an embedding vector (one row of a batch, one
    column of the queue) and a batch of embeddings. *)
Abbreviation tensor F := (list F) (only parsing).
Abbreviation embedding F := (list F) (only parsing).
Abbreviation batch F := (list (list F)) (only parsing).

(** A batch all of whose rows, or a queue all of whose columns, have
    [dim] entries. *)
Definition of_width {A} (dim : nat) (rows : list (list A)) : Prop :=
  Forall (λ row, length row = dim) rows.

(** [torch.nn.Parameter]: the [data], the [requires_grad] flag and the
    accumulated gradient ([None] until a backward pass writes one). *)
Record param (F : Type) : Type := Param {
  data : tensor F;
  requires_grad : bool;
  grad : option (tensor F)
}.
Arguments Param {F} _ _ _.
Arguments data {F} _.
Arguments requires_grad {F} _.
Arguments grad {F} _.

(** The attributes [__init__] sets on a [MoCov1] / [MoCov2] object.
    [queue !! j] is the column [queue[:, j]]. *)
Record moco (F : Type) : Type := MoCo {
  K : nat;
  m : F;
  T : F;
  encoder_q : list (param F);
  encoder_k : list (param F);
  queue : list (embedding F);
  queue_ptr : nat
}.
Arguments MoCo {F} _ _ _ _ _ _ _.
Arguments K {F} _.
Arguments m {F} _.
Arguments T {F} _.
Arguments encoder_q {F} _.
Arguments encoder_k {F} _.
Arguments queue {F} _.
Arguments queue_ptr {F} _.

(** A method that may mutate [self] and may raise. *)
Definition method (F A : Type) : Type := moco F → result A * moco F.

(** ** Tensor primitives of the numeric library *)

Section Primitives.
Context {F : Type} `{Scalar F}.
Local Open Scope scalar_scope.

(** [t * c] for a Python scalar [c]. *)
Definition tensor_scale (t : tensor F) (c : F) : tensor F :=
  (λ x, x * c) <$> t.

(** [a + b] for tensors of one shape. *)
Definition tensor_add (a b : tensor F) : tensor F := zip_with s_add a b.

Definition tensor_sum (l : list F) : F := foldr s_add s_zero l.

(** One output entry of [einsum('nc,nc->n')] and of [einsum('nc,ck->nk')]:
    the contraction over the [c] axis. *)
Definition dot (a b : embedding F) : F := tensor_sum (zip_with s_mul a b).

(** [x[idx]] with an index tensor: gathers rows, [IndexError] when an
    index is out of range. *)
Definition index_rows {A} (x : list A) (idx : list nat) : result (list A) :=
  match mapM (λ i, x !! i) idx with
  | Some rows => Ok rows
  | None => Raise IndexError
  end.

(** [torch.argsort]: the positions of the input, ordered by the values
    found there (insertion into an ordered list of (value, position)). *)
Fixpoint insert_by_key (p : nat * nat) (l : list (nat * nat)) : list (nat * nat) :=
  match l with
  | [] => [p]
  | p' :: l' => if bool_decide (p.1 ≤ p'.1)%nat then p :: l
               else p' :: insert_by_key p l'
  end.

Definition sort_by_key (l : list (nat * nat)) : list (nat * nat) :=
  foldr insert_by_key [] l.

Definition argsort (v : list nat) : list nat :=
  snd <$> sort_by_key (zip v (seq 0 (length v))).
End Primitives.

Section Loss.
Context {F : Type} `{Scalar F} `{Elementary F}.
Local Open Scope scalar_scope.

Definition log_softmax (row : list F) : list F :=
  let lse := s_log (tensor_sum (s_exp <$> row)) in
  (λ v, v - lse) <$> row.

(** Negative log-likelihood of the target class of each row; a target
    outside the row is an [IndexError], a number of targets other than
    the number of rows a [ValueError]. *)
Fixpoint nll_rows (logits : list (list F)) (labels : list nat) : result (list F) :=
  match logits, labels with
  | row :: logits', y :: labels' =>
      match log_softmax row !! y with
      | Some v => rest ← nll_rows logits' labels'; Ok (- v :: rest)
      | None => Raise IndexError
      end
  | [], [] => Ok []
  | _, _ => Raise ValueError
  end.

(** The loss of one row when the target class is 0: minus the log of the
    softmax probability of the first logit. *)
Definition positive_nll (row : list F) : F :=
  match row with
  | [] => s_zero
  | v :: _ => - (v - s_log (tensor_sum (s_exp <$> row)))
  end.

(** [nn.CrossEntropyLoss()(logits, labels)], mean reduction. *)
Definition CrossEntropyLoss (logits : list (list F)) (labels : list nat) : result F :=
  losses ← nll_rows logits labels;
  Ok (tensor_sum losses / s_of_nat (length logits)).
End Loss.

(** ** Methods on a model object *)

Section Methods.
Context {F : Type}.

Global Instance method_ret : MRet (method F) := λ A a self, (Ok a, self).
Global Instance method_bind : MBind (method F) :=
  λ A B f c self,
    match c self with
    | (Ok a, self') => f a self'
    | (Raise e, self') => (Raise e, self')
    end.

(** A call that reads [self] and leaves it as it is. *)
Definition reading {A} (f : moco F → result A) : method F A :=
  λ self, (f self, self).

Definition set_encoder_k (ks : list (param F)) (self : moco F) : moco F :=
  {| K := K self; m := m self; T := T self; encoder_q := encoder_q self;
     encoder_k := ks; queue := queue self; queue_ptr := queue_ptr self |}.

Definition set_queue (q : list (embedding F)) (self : moco F) : moco F :=
  {| K := K self; m := m self; T := T self; encoder_q := encoder_q self;
     encoder_k := encoder_k self; queue := q; queue_ptr := queue_ptr self |}.

Definition set_queue_ptr (ptr : nat) (self : moco F) : moco F :=
  {| K := K self; m := m self; T := T self; encoder_q := encoder_q self;
     encoder_k := encoder_k self; queue := queue self; queue_ptr := ptr |}.

(** Parameters as a freshly constructed network holds them. *)
Definition fresh_params (ws : list (tensor F)) : list (param F) :=
  (λ w, {| data := w; requires_grad := true; grad := None |}) <$> ws.
End Methods.

(** ** class MoCov1 *)

Module MoCov1.
Section Model.
Context {F : Type} `{Scalar F} `{Elementary F} {image : Type}.
Local Open Scope scalar_scope.

(** The forward pass of [ModelBasev1] (backbone [f], projector [g],
    L2 normalisation) in training mode, as a function of the parameter
    values and the input batch. *)
Variable ModelBasev1 : list (tensor F) → list image → batch F.

Definition encoder (ps : list (param F)) (x : list image) : batch F :=
  ModelBasev1 (data <$> ps) x.

(** The loop of [__init__] over [zip(encoder_q.parameters(),
    encoder_k.parameters())]: [param_k.data.copy_(param_q.data)] and
    [param_k.requires_grad = False]. *)
Fixpoint init_key_params (qs ks : list (param F)) : list (param F) :=
  match qs, ks with
  | param_q :: qs', param_k :: ks' =>
      {| data := data param_q; requires_grad := false; grad := grad param_k |}
      :: init_key_params qs' ks'
  | _, _ => ks
  end.

(** [__init__(feature_dim, K, m, T, arch, bn_splits)]. The two calls of
    [ModelBasev1(feature_dim, arch, bn_splits)] yield the initial values
    [wq] and [wk]; [noise j] is column [j] of
    [normalize(randn(feature_dim, K), dim=0)]. *)
Definition __init__ (K0 : nat) (m0 T0 : F) (wq wk : list (tensor F))
    (noise : nat → embedding F) : moco F :=
  let encoder_q0 := fresh_params wq in
  let encoder_k0 := fresh_params wk in
  {| K := K0; m := m0; T := T0;
     encoder_q := encoder_q0;
     encoder_k := init_key_params encoder_q0 encoder_k0;
     queue := noise <$> seq 0 K0;
     queue_ptr := 0 |}.

(** [param_k.data = param_k.data * self.m + param_q.data * (1. - self.m)] *)
Definition momentum_param (m0 : F) (param_q param_k : param F) : param F :=
  {| data := tensor_add (tensor_scale (data param_k) m0)
                        (tensor_scale (data param_q) (s_one - m0));
     requires_grad := requires_grad param_k;
     grad := grad param_k |}.

Fixpoint momentum_loop (m0 : F) (qs ks : list (param F)) : list (param F) :=
  match qs, ks with
  | param_q :: qs', param_k :: ks' =>
      momentum_param m0 param_q param_k :: momentum_loop m0 qs' ks'
  | _, _ => ks
  end.

Definition _momentum_update_key_encoder : method F () := λ self,
  (Ok (), set_encoder_k (momentum_loop (m self) (encoder_q self) (encoder_k self)) self).

(** One column of the slice assignment below, along the embedding axis:
    the key needs as many entries as the column has, or one entry, which
    is broadcast over the column. *)
Definition assign_column (column key : embedding F) : result (embedding F) :=
  if bool_decide (length key = length column) then Ok key
  else match key with
       | [v] => Ok ((λ _, v) <$> column)
       | _ => Raise RuntimeError
       end.

Fixpoint assign_slice (slice : list (embedding F)) (source : batch F)
    : result (list (embedding F)) :=
  match slice, source with
  | column :: slice', key :: source' =>
      column' ← assign_column column key;
      columns' ← assign_slice slice' source';
      Ok (column' :: columns')
  | _, _ => Ok []
  end.

(** [self.queue[:, ptr:ptr + batch_size] = keys.t()]: the slice is
    clipped at the end of the buffer. Along the column axis the
    assignment needs as many keys as the slice has columns, or one key,
    which is broadcast; along the embedding axis every key is compared
    with the column it is written to. The row count of the buffer is
    read off its columns, so an empty slice compares nothing. *)
Definition assign_columns (q : list (embedding F)) (ptr : nat)
    (keys : batch F) : result (list (embedding F)) :=
  let batch_size := length keys in
  let slice := take batch_size (drop ptr q) in
  source ←
    (if bool_decide (length slice = batch_size) then Ok keys
     else if bool_decide (batch_size = 1%nat) then
       Ok ((λ _, default [] (head keys)) <$> slice)
     else Raise RuntimeError);
  columns ← assign_slice slice source;
  Ok (take ptr q ++ columns ++ drop (ptr + length slice)%nat q).

Definition _dequeue_and_enqueue (keys : batch F) : method F () := λ self,
  let batch_size := length keys in
  let ptr := queue_ptr self in
  if bool_decide (batch_size = 0%nat) then (Raise ZeroDivisionError, self)
  else if negb (bool_decide (K self mod batch_size = 0)%nat) then
    (Raise AssertionError, self)
  else
    match assign_columns (queue self) ptr keys with
    | Raise e => (Raise e, self)
    | Ok q' =>
        let self := set_queue q' self in
        if bool_decide (K self = 0%nat) then (Raise ZeroDivisionError, self)
        else
          let ptr := ((ptr + batch_size) mod K self)%nat in
          (Ok (), set_queue_ptr ptr self)
    end.

(** [idx_shuffle] is the draw of [torch.randperm(x.shape[0])]. *)
Definition _batch_shuffle_single_gpu {A} (x : list A) (idx_shuffle : list nat)
    : result (list A * list nat) :=
  let idx_unshuffle := argsort idx_shuffle in
  x_ ← index_rows x idx_shuffle;
  Ok (x_, idx_unshuffle).

Definition _batch_unshuffle_single_gpu {A} (x : list A) (idx_unshuffle : list nat)
    : result (list A) :=
  index_rows x idx_unshuffle.

(** Lines 124-135: the logits of a query batch, a key batch and the
    queue, after the division by the temperature. *)
Definition logits_of (q k : batch F) (queue0 : list (embedding F)) (T0 : F)
    : list (list F) :=
  let l_pos : list F := zip_with dot q k in
  let l_neg : list (list F) := (λ qi, dot qi <$> queue0) <$> q in
  let logits : list (list F) := zip_with cons l_pos l_neg in
  (λ row : list F, (λ v, v / T0) <$> row) <$> logits.

Definition contrastive_loss (im_q im_k : list image) (idx_shuffle : list nat)
    : method F (F * batch F * batch F) :=
  reading (λ self,
    let q := encoder (encoder_q self) im_q in
    '(im_k_, idx_unshuffle) ← _batch_shuffle_single_gpu im_k idx_shuffle;
    let k := encoder (encoder_k self) im_k_ in
    k ← _batch_unshuffle_single_gpu k idx_unshuffle;
    let logits := logits_of q k (queue self) (T self) in
    let labels := replicate (length logits) 0%nat in
    loss ← CrossEntropyLoss logits labels;
    Ok (loss, q, k)).

(** [idx12] and [idx21] are the permutations drawn by the first and by
    the second call of [contrastive_loss]. *)
Definition forward (im1 im2 : list image) (idx12 idx21 : list nat) : method F F :=
  _ ← _momentum_update_key_encoder;
  '(loss_12, q1, k2) ← contrastive_loss im1 im2 idx12;
  '(loss_21, q2, k1) ← contrastive_loss im2 im1 idx21;
  let loss := loss_12 + loss_21 in
  let k := k1 ++ k2 in
  _ ← _dequeue_and_enqueue k;
  mret loss.
End Model.
End MoCov1.

(** ** class MoCov2 *)

Module MoCov2.
Section Model.
Context {F : Type} `{Scalar F} `{Elementary F} {image dropout : Type}.
Local Open Scope scalar_scope.

(** The forward pass of [ModelBasev2] in training mode; its projector
    holds an [nn.Dropout], whose mask is drawn at every call. *)
Variable ModelBasev2 : dropout → list (tensor F) → list image → batch F.

Definition encoder (mask : dropout) (ps : list (param F)) (x : list image)
    : batch F :=
  ModelBasev2 mask (data <$> ps) x.

Fixpoint init_key_params (qs ks : list (param F)) : list (param F) :=
  match qs, ks with
  | param_q :: qs', param_k :: ks' =>
      {| data := data param_q; requires_grad := false; grad := grad param_k |}
      :: init_key_params qs' ks'
  | _, _ => ks
  end.

Definition __init__ (K0 : nat) (m0 T0 : F) (wq wk : list (tensor F))
    (noise : nat → embedding F) : moco F :=
  let encoder_q0 := fresh_params wq in
  let encoder_k0 := fresh_params wk in
  {| K := K0; m := m0; T := T0;
     encoder_q := encoder_q0;
     encoder_k := init_key_params encoder_q0 encoder_k0;
     queue := noise <$> seq 0 K0;
     queue_ptr := 0 |}.

Definition momentum_param (m0 : F) (param_q param_k : param F) : param F :=
  {| data := tensor_add (tensor_scale (data param_k) m0)
                        (tensor_scale (data param_q) (s_one - m0));
     requires_grad := requires_grad param_k;
     grad := grad param_k |}.

Fixpoint momentum_loop (m0 : F) (qs ks : list (param F)) : list (param F) :=
  match qs, ks with
  | param_q :: qs', param_k :: ks' =>
      momentum_param m0 param_q param_k :: momentum_loop m0 qs' ks'
  | _, _ => ks
  end.

Definition _momentum_update_key_encoder : method F () := λ self,
  (Ok (), set_encoder_k (momentum_loop (m self) (encoder_q self) (encoder_k self)) self).

Definition assign_column (column key : embedding F) : result (embedding F) :=
  if bool_decide (length key = length column) then Ok key
  else match key with
       | [v] => Ok ((λ _, v) <$> column)
       | _ => Raise RuntimeError
       end.

Fixpoint assign_slice (slice : list (embedding F)) (source : batch F)
    : result (list (embedding F)) :=
  match slice, source with
  | column :: slice', key :: source' =>
      column' ← assign_column column key;
      columns' ← assign_slice slice' source';
      Ok (column' :: columns')
  | _, _ => Ok []
  end.

Definition assign_columns (q : list (embedding F)) (ptr : nat)
    (keys : batch F) : result (list (embedding F)) :=
  let batch_size := length keys in
  let slice := take batch_size (drop ptr q) in
  source ←
    (if bool_decide (length slice = batch_size) then Ok keys
     else if bool_decide (batch_size = 1%nat) then
       Ok ((λ _, default [] (head keys)) <$> slice)
     else Raise RuntimeError);
  columns ← assign_slice slice source;
  Ok (take ptr q ++ columns ++ drop (ptr + length slice)%nat q).

Definition _dequeue_and_enqueue (keys : batch F) : method F () := λ self,
  let batch_size := length keys in
  let ptr := queue_ptr self in
  if bool_decide (batch_size = 0%nat) then (Raise ZeroDivisionError, self)
  else if negb (bool_decide (K self mod batch_size = 0)%nat) then
    (Raise AssertionError, self)
  else
    match assign_columns (queue self) ptr keys with
    | Raise e => (Raise e, self)
    | Ok q' =>
        let self := set_queue q' self in
        if bool_decide (K self = 0%nat) then (Raise ZeroDivisionError, self)
        else
          let ptr := ((ptr + batch_size) mod K self)%nat in
          (Ok (), set_queue_ptr ptr self)
    end.

Definition _batch_shuffle_single_gpu {A} (x : list A) (idx_shuffle : list nat)
    : result (list A * list nat) :=
  let idx_unshuffle := argsort idx_shuffle in
  x_ ← index_rows x idx_shuffle;
  Ok (x_, idx_unshuffle).

Definition _batch_unshuffle_single_gpu {A} (x : list A) (idx_unshuffle : list nat)
    : result (list A) :=
  index_rows x idx_unshuffle.

Definition logits_of (q k : batch F) (queue0 : list (embedding F)) (T0 : F)
    : list (list F) :=
  let l_pos : list F := zip_with dot q k in
  let l_neg : list (list F) := (λ qi, dot qi <$> queue0) <$> q in
  let logits : list (list F) := zip_with cons l_pos l_neg in
  (λ row : list F, (λ v, v / T0) <$> row) <$> logits.

(** [mask_q] and [mask_k] are the dropout masks drawn inside the query
    and the key encoder. *)
Definition contrastive_loss (im_q im_k : list image) (idx_shuffle : list nat)
    (mask_q mask_k : dropout) : method F (F * batch F * batch F) :=
  reading (λ self,
    let q := encoder mask_q (encoder_q self) im_q in
    '(im_k_, idx_unshuffle) ← _batch_shuffle_single_gpu im_k idx_shuffle;
    let k := encoder mask_k (encoder_k self) im_k_ in
    k ← _batch_unshuffle_single_gpu k idx_unshuffle;
    let logits := logits_of q k (queue self) (T self) in
    let labels := replicate (length logits) 0%nat in
    loss ← CrossEntropyLoss logits labels;
    Ok (loss, q, k)).

Definition forward (im1 im2 : list image) (idx12 idx21 : list nat)
    (mask_q1 mask_k2 mask_q2 mask_k1 : dropout) : method F F :=
  _ ← _momentum_update_key_encoder;
  '(loss_12, q1, k2) ← contrastive_loss im1 im2 idx12 mask_q1 mask_k2;
  '(loss_21, q2, k1) ← contrastive_loss im2 im1 idx21 mask_q2 mask_k1;
  let loss := loss_12 + loss_21 in
  let k := k1 ++ k2 in
  _ ← _dequeue_and_enqueue k;
  mret loss.
End Model.
End MoCov2.

(** ** Training around a [MoCov1] model

    The calls a training loop makes on the model and its parameters: the
    step itself, and the three calls of the numeric library that read or
    write parameters, with the library's contract for each. *)

Section Training.
Context {F : Type} `{Scalar F} `{Elementary F} {image : Type}.
Variable ModelBasev1 : list (tensor F) → list image → batch F.

(** [loss.backward()]: a gradient contribution is accumulated into
    [.grad] of a parameter only if the parameter requires grad. *)
Definition accumulate_grad (g : tensor F) (p : param F) : param F :=
  if requires_grad p then
    {| data := data p; requires_grad := true;
       grad := Some (match grad p with
                     | None => g
                     | Some g0 => tensor_add g0 g
                     end) |}
  else p.

Definition backward (gq gk : nat → tensor F) (self : moco F) : moco F :=
  {| K := K self; m := m self; T := T self;
     encoder_q := imap (λ i, accumulate_grad (gq i)) (encoder_q self);
     encoder_k := imap (λ i, accumulate_grad (gk i)) (encoder_k self);
     queue := queue self; queue_ptr := queue_ptr self |}.

(** [optimizer.step()]: parameters without a gradient are skipped. *)
Definition optimizer_update (upd : tensor F → tensor F → tensor F)
    (p : param F) : param F :=
  match grad p with
  | Some g => {| data := upd (data p) g; requires_grad := requires_grad p;
                 grad := grad p |}
  | None => p
  end.

Definition optimizer_step (upd : tensor F → tensor F → tensor F)
    (self : moco F) : moco F :=
  {| K := K self; m := m self; T := T self;
     encoder_q := optimizer_update upd <$> encoder_q self;
     encoder_k := optimizer_update upd <$> encoder_k self;
     queue := queue self; queue_ptr := queue_ptr self |}.

(** [optimizer.zero_grad()] *)
Definition clear_grad (p : param F) : param F :=
  {| data := data p; requires_grad := requires_grad p; grad := None |}.

Definition zero_grad (self : moco F) : moco F :=
  {| K := K self; m := m self; T := T self;
     encoder_q := clear_grad <$> encoder_q self;
     encoder_k := clear_grad <$> encoder_k self;
     queue := queue self; queue_ptr := queue_ptr self |}.

(** A parameter outside gradient training: not marked as requiring
    grad, and holding no gradient. *)
Definition frozen (p : param F) : Prop :=
  requires_grad p = false ∧ grad p = None.

Inductive event : Type :=
  | Step (im1 im2 : list image) (idx12 idx21 : list nat)
  | Backward (gq gk : nat → tensor F)
  | OptimizerStep (upd : tensor F → tensor F → tensor F)
  | ZeroGrad.

(** The state an event leaves behind (for a step: also when it raises). *)
Definition run_event (self : moco F) (e : event) : moco F :=
  match e with
  | Step im1 im2 idx12 idx21 =>
      (MoCov1.forward ModelBasev1 im1 im2 idx12 idx21 self).2
  | Backward gq gk => backward gq gk self
  | OptimizerStep upd => optimizer_step upd self
  | ZeroGrad => zero_grad self
  end.

Definition run_events (self : moco F) (es : list event) : moco F :=
  foldl run_event self es.

(** Successive calls of [_dequeue_and_enqueue], stopping at the first
    that raises. *)
Fixpoint enqueue_all (bs : list (batch F)) : method F () :=
  match bs with
  | [] => mret ()
  | keys :: bs' => _ ← MoCov1._dequeue_and_enqueue keys; enqueue_all bs'
  end.

(** The queue read circularly from the write pointer: the column that
    is overwritten next comes first. *)
Definition circular_view (self : moco F) : list (embedding F) :=
  drop (queue_ptr self) (queue self) ++ take (queue_ptr self) (queue self).

(** What one enqueue does to the queue when it writes [keys] as one
    contiguous block at the pointer. *)
Definition writes_block (self : moco F) (keys : batch F)
    (out : result () * moco F) : Prop :=
  out.1 = Ok () ∧
  length (queue out.2) = length (queue self) ∧
  (∀ i, i < length keys → queue out.2 !! (queue_ptr self + i) = keys !! i) ∧
  (∀ j, j < queue_ptr self ∨ queue_ptr self + length keys ≤ j →
        queue out.2 !! j = queue self !! j) ∧
  queue_ptr out.2 = (queue_ptr self + length keys) mod K self.

(** The call of the encoder with the parameters [ps] on the batch [x]
    returns one embedding of [dim] entries per image. *)
Definition embeds (dim : nat) (ps : list (param F)) (x : list image) : Prop :=
  length (MoCov1.encoder ModelBasev1 ps x) = length x ∧
  of_width dim (MoCov1.encoder ModelBasev1 ps x).

(** The same for the call of the key branch of [contrastive_loss], whose
    input is the shuffled batch [im_k[idx_shuffle]]. *)
Definition embeds_shuffled (dim : nat) (ps : list (param F))
    (im_k : list image) (idx_shuffle : list nat) : Prop :=
  ∀ im_k_ : list image,
    index_rows im_k idx_shuffle = Ok im_k_ → embeds dim ps im_k_.

(** The four encoder calls of a step: the query encoder on each view,
    and the key encoder, with the parameters the momentum update leaves
    it, on each shuffled view. *)
Definition step_embeds (dim : nat) (self : moco F) (im1 im2 : list image)
    (idx12 idx21 : list nat) : Prop :=
  let ks := MoCov1.momentum_loop (m self) (encoder_q self) (encoder_k self) in
  embeds dim (encoder_q self) im1 ∧ embeds_shuffled dim ks im2 idx12 ∧
  embeds dim (encoder_q self) im2 ∧ embeds_shuffled dim ks im1 idx21.
End Training.

(** ** linear.py *)

Module Linear.
(** The module a [Net] takes as its frozen encoder [f]. *)
Inductive encoder_module : Type :=
  | MoCov1_encoder_q_f
  | MoCov2_encoder_q_f
  | SimCLRv1_f
  | SimCLRv2_f_g1.

(** [nn.Linear(in_features, out_features, bias)] *)
Record nn_Linear : Type := {
  in_features : nat;
  out_features : nat;
  bias : bool
}.

Record Net : Type := {
  f : encoder_module;
  fc : nn_Linear
}.

(** [Net.__init__(model_name, num_class, pretrained_path)]. The outcome
    of reading the checkpoint at [pretrained_path] and of the non-strict
    [load_state_dict] on the module built so far is [load_state_dict]. *)
Definition Net__init__ (model_name : string) (num_class : nat)
    (load_state_dict : Net → result ()) : result Net :=
  self ←
    (if String.eqb model_name "mocov1" then
       Ok {| f := MoCov1_encoder_q_f;
             fc := {| in_features := 512; out_features := num_class; bias := true |} |}
     else if String.eqb model_name "mocov2" then
       Ok {| f := MoCov2_encoder_q_f;
             fc := {| in_features := 512; out_features := num_class; bias := true |} |}
     else if String.eqb model_name "simclrv1" then
       Ok {| f := SimCLRv1_f;
             fc := {| in_features := 2048; out_features := num_class; bias := true |} |}
     else if String.eqb model_name "simclrv2" then
       Ok {| f := SimCLRv2_f_g1;
             fc := {| in_features := 1024; out_features := num_class; bias := true |} |}
     else Raise AssertionError);
  _ ← load_state_dict self;
  Ok self.

Section TrainVal.
Context {F : Type} `{Scalar F} {net data optimizer object : Type}.
Local Open Scope scalar_scope.

(** [net.train()] and [net.eval()] (line 58). *)
Variable set_training : bool → net → net.

(** For one batch and the current network, lines 63-65 and 72-76: the
    forward pass [net(data)] and [loss_criterion(out, target)], either
    of which may raise, then [loss.item()], the number of top-1 and of
    top-5 hits and [data.size(0)]. A forward pass may write buffers of
    the network (the running statistics of a batch normalisation in
    training mode): the second component is the network it leaves. *)
Variable evaluate : net → data → result (F * F * F * nat) * net.

(** [zero_grad(); loss.backward(); step()] (lines 68-70): may raise, and
    leaves an optimizer and a network. *)
Variable optimize : optimizer → net → data → result () * (optimizer * net).

Record totals : Type := {
  total_loss : F;
  total_correct_1 : F;
  total_correct_5 : F;
  total_num : nat
}.

(** Lines 63-70 for one batch. *)
Definition batch_step (net0 : net) (train_optimizer : option optimizer)
    (d : data) : result (F * F * F * nat) * (net * option optimizer) :=
  match evaluate net0 d with
  | (Raise e, net1) => (Raise e, (net1, train_optimizer))
  | (Ok stats, net1) =>
      match train_optimizer with
      | None => (Ok stats, (net1, None))
      | Some o =>
          match optimize o net1 d with
          | (Raise e, (o', net2)) => (Raise e, (net2, Some o'))
          | (Ok _, (o', net2)) => (Ok stats, (net2, Some o'))
          end
      end
  end.

(** The loop over the batches. After the sums of a batch are updated,
    the progress text divides [total_loss], [total_correct_1] and
    [total_correct_5] by [total_num] (lines 78-80), which raises while
    no sample has been counted. *)
Fixpoint batches_loop (net0 : net) (train_optimizer : option optimizer)
    (data_bar : list data) (acc : totals)
    : result totals * (net * option optimizer) :=
  match data_bar with
  | [] => (Ok acc, (net0, train_optimizer))
  | d :: data_bar' =>
      match batch_step net0 train_optimizer d with
      | (Raise e, after) => (Raise e, after)
      | (Ok (loss, correct_1, correct_5, n), (net1, train_optimizer1)) =>
          let acc1 :=
            {| total_num := total_num acc + n;
               total_loss := total_loss acc + loss * s_of_nat n;
               total_correct_1 := total_correct_1 acc + correct_1;
               total_correct_5 := total_correct_5 acc + correct_5 |} in
          if bool_decide (total_num acc1 = 0%nat) then
            (Raise ZeroDivisionError, (net1, train_optimizer1))
          else batches_loop net1 train_optimizer1 data_bar' acc1
      end
  end.

(** [def train_val(net, data_loader, train_optimizer)]: the body. A
    [train_optimizer] of [None] is evaluation. The outcome comes with
    the network and the optimizer the call leaves. *)
Definition train_val (net0 : net) (data_loader : list data)
    (train_optimizer : option optimizer)
    : result (F * F * F) * (net * option optimizer) :=
  let is_train := match train_optimizer with Some _ => true | None => false end in
  let net1 := set_training is_train net0 in
  match batches_loop net1 train_optimizer data_loader
          {| total_loss := s_zero; total_correct_1 := s_zero;
             total_correct_5 := s_zero; total_num := 0 |} with
  | (Raise e, after) => (Raise e, after)
  | (Ok t, after) =>
      if bool_decide (total_num t = 0%nat) then (Raise ZeroDivisionError, after)
      else
        let n := s_of_nat (total_num t) in
        (Ok (total_loss t / n,
             total_correct_1 t / n * s_of_nat 100,
             total_correct_5 t / n * s_of_nat 100), after)
  end.

(** A call [train_val(a, b, c, *extra)]: the function declares three
    positional parameters and no others, so any further positional
    argument is a [TypeError], raised before the body runs. *)
Definition call_train_val (net0 : net) (data_loader : list data)
    (train_optimizer : option optimizer) (extra : list object)
    : result (F * F * F) * (net * option optimizer) :=
  match extra with
  | [] => train_val net0 data_loader train_optimizer
  | _ :: _ => (Raise TypeError, (net0, train_optimizer))
  end.

(** One pass of the loop of the main script, up to the statistics it
    appends (lines 124 and 128). *)
Definition main_epoch (model : net) (train_loader test_loader : list data)
    (optimizer0 : optimizer) (scheduler : object)
    : result ((F * F * F) * (F * F * F)) * (net * optimizer) :=
  match call_train_val model train_loader (Some optimizer0) [scheduler] with
  | (Raise e, (model1, o)) => (Raise e, (model1, default optimizer0 o))
  | (Ok train_statistics, (model1, o)) =>
      let optimizer1 := default optimizer0 o in
      match call_train_val model1 test_loader None [] with
      | (Raise e, (model2, _)) => (Raise e, (model2, optimizer1))
      | (Ok test_statistics, (model2, _)) =>
          (Ok (train_statistics, test_statistics), (model2, optimizer1))
      end
  end.
End TrainVal.
End Linear.

(** ** Small concrete models *)

Module Examples.
(** Over the rationals: a model with four queue columns of width two,
    one weight tensor and one bias tensor per encoder. *)
Definition queue4 : moco Q :=
  MoCov1.__init__ 4 (99 # 100)%Q (1 # 10)%Q
    [[1%Q; 2%Q]; [3%Q]] [[5%Q; 6%Q]; [7%Q]]
    (λ j, [inject_Z (Z.of_nat j); 0%Q]).

Definition keys2 : batch Q := [[1%Q; 0%Q]; [0%Q; 1%Q]].
Definition keys3 : batch Q := [[1%Q; 0%Q]; [0%Q; 1%Q]; [1%Q; 1%Q]].
Definition keys4 : batch Q :=
  [[2%Q; 0%Q]; [0%Q; 2%Q]; [2%Q; 2%Q]; [3%Q; 3%Q]].
Definition keys2' : batch Q := [[3%Q; 3%Q]; [4%Q; 4%Q]].
Definition keys2'' : batch Q := [[5%Q; 5%Q]; [6%Q; 6%Q]].
Definition narrow2 : batch Q := [[7%Q]; [8%Q]].
Definition wide2 : batch Q := [[1%Q; 2%Q; 3%Q]; [4%Q; 5%Q; 6%Q]].

(** Over the reals: images are vectors of width two, the encoder scales
    every image elementwise by its first parameter tensor. *)
Definition scale_net (ps : list (tensor R)) (x : list (list R)) : batch R :=
  (λ im, zip_with Rmult (default [] (head ps)) im) <$> x.

Definition real4 : moco R :=
  MoCov1.__init__ 4 (99 / 100)%R (1 / 10)%R
    [[1%R; 1%R]; [0%R]] [[2%R; 2%R]; [5%R]] (λ _, [1%R; 0%R]).

(** [real4] with key parameters that differ from its query parameters. *)
Definition real4' : moco R :=
  set_encoder_k [Param [2%R; 3%R] false None; Param [5%R] false None] real4.

Definition view_a : list (list R) := [[1%R; 0%R]].
Definition view_b : list (list R) := [[0%R; 1%R]].
Definition views_a : list (list R) := [[1%R; 0%R]; [0%R; 1%R]].
Definition views_b : list (list R) := [[0%R; 1%R]; [1%R; 0%R]].
Definition views_c : list (list R) := [[1%R; 2%R]; [3%R; 4%R]].
Definition views3_a : list (list R) := [[1%R; 0%R]; [0%R; 1%R]; [1%R; 1%R]].
Definition views3_b : list (list R) := [[0%R; 1%R]; [1%R; 0%R]; [1%R; 1%R]].
End Examples.

(** ** Runs of training steps *)

Section Runs.
Context {F : Type} `{Scalar F} `{Elementary F} {image : Type}.
Variable ModelBasev1 : list (tensor F) → list image → batch F.

(** The queue holds as many columns as the capacity says, and the write
    pointer designates one of them. *)
Definition well_formed (self : moco F) : Prop :=
  length (queue self) = K self ∧ queue_ptr self < K self.

(** The two views of a step and the two permutations it draws. *)
Definition step_input : Type :=
  (list image * list image * list nat * list nat)%type.

(** The key batch [torch.cat([k1, k2])] a step computes (lines 149-152),
    on the model as the momentum update leaves it. *)
Definition step_keys (s : step_input) (self : moco F) : batch F :=
  let '(im1, im2, idx12, idx21) := s in
  let self1 := (MoCov1._momentum_update_key_encoder self).2 in
  match (MoCov1.contrastive_loss ModelBasev1 im1 im2 idx12 self1).1,
        (MoCov1.contrastive_loss ModelBasev1 im2 im1 idx21 self1).1 with
  | Ok (_, _, k2), Ok (_, _, k1) => k1 ++ k2
  | _, _ => []
  end.

(** A step on two views of [N] images each, with permutations of the
    [N] batch positions as the two draws of [torch.randperm]. *)
Definition step_fits (N : nat) (s : step_input) : Prop :=
  let '(im1, im2, idx12, idx21) := s in
  length im1 = N ∧ length im2 = N ∧
  idx12 ≡ₚ seq 0 N ∧ idx21 ≡ₚ seq 0 N.

(** Successive calls of [forward], stopping at the first that raises;
    the losses in order. *)
Fixpoint train_steps (steps : list step_input) : method F (list F) :=
  match steps with
  | [] => mret []
  | (im1, im2, idx12, idx21) :: steps' =>
      loss ← MoCov1.forward ModelBasev1 im1 im2 idx12 idx21;
      losses ← train_steps steps';
      mret (loss :: losses)
  end.

(** The key batches of the successive steps, each computed on the model
    its predecessors leave. *)
Fixpoint keys_of_steps (steps : list step_input) (self : moco F)
    : list (batch F) :=
  match steps with
  | [] => []
  | s :: steps' =>
      let '(im1, im2, idx12, idx21) := s in
      step_keys s self
      :: keys_of_steps steps'
           (MoCov1.forward ModelBasev1 im1 im2 idx12 idx21 self).2
  end.
End Runs.

(** ** linear.py: the statistics of one batch *)

Module Evaluation.
Section Batch.
Context {F : Type} `{Scalar F} {net sample : Type}.

(** [net(data)]: one row of class scores per sample when it returns,
    with the network the pass leaves. *)
Variable net_forward : net → list sample → result (list (list F)) * net.

(** [loss_criterion(out, target).item()]; [loss_criterion] is the global
    the main script sets to [nn.CrossEntropyLoss()]. *)
Variable loss_criterion : list (list F) → list nat → result F.

(** [torch.argsort(row, descending=True)] on one row of scores: the class
    indices, best score first. *)
Variable argsort_descending : list F → list nat.

(** Lines 75 and 76 with [k = 1] and [k = 5]:
    [(prediction[:, 0:k] == target.unsqueeze(-1)).any(-1).float()] summed
    over the batch: the number of samples whose target is among the
    first [k] predicted classes (the slice is clipped when there are
    fewer than [k] classes). *)
Definition topk_hits (k : nat) (out : list (list F)) (target : list nat) : nat :=
  length (filter (λ p : list F * nat, p.2 ∈ take k (argsort_descending p.1))
            (zip out target)).

(** Lines 63-65 and 72-76 for one batch [(data, target)]. *)
Definition evaluate_batch (net0 : net) (d : list sample * list nat)
    : result (F * F * F * nat) * net :=
  let '(data, target) := d in
  match net_forward net0 data with
  | (Raise e, net1) => (Raise e, net1)
  | (Ok out, net1) =>
      match loss_criterion out target with
      | Raise e => (Raise e, net1)
      | Ok loss =>
          (Ok (loss,
               s_of_nat (topk_hits 1 out target),
               s_of_nat (topk_hits 5 out target),
               length data), net1)
      end
  end.
End Batch.
End Evaluation.

(** ** Shapes through the forward passes

    The forward passes of the encoders and of the evaluation network on
    the shape of their input: what each layer requires of the shape it
    receives and the shape it returns. The convolutional trunk [f] is not
    entered: the shape it returns is the argument. *)

Module Shapes.
(** The number of elements of a tensor of shape [s]. *)
Definition numel (s : list nat) : nat := foldr Nat.mul 1 s.

(** [nn.Linear(in_features, out_features)]: acts on the last dimension,
    which must be [in_features]. *)
Definition Linear_forward (in_features out_features : nat) (s : list nat)
    : result (list nat) :=
  match last s with
  | Some d =>
      if bool_decide (d = in_features) then Ok (removelast s ++ [out_features])
      else Raise RuntimeError
  | None => Raise RuntimeError
  end.

(** [torch.flatten(x, start_dim=1)] *)
Definition flatten (s : list nat) : result (list nat) :=
  match s with
  | n :: d :: rest => Ok [n; numel (d :: rest)]
  | _ => Raise IndexError
  end.

(** [nn.BatchNorm1d(num_features)]: a 2-D or 3-D input; in training mode
    more than one value per channel; [num_features] channels. *)
Definition BatchNorm1d_forward (num_features : nat) (training : bool)
    (s : list nat) : result (list nat) :=
  match s with
  | [n; c] =>
      if training && bool_decide (n = 1) then Raise ValueError
      else if bool_decide (c = num_features) then Ok s
      else Raise RuntimeError
  | [n; c; l] =>
      if training && bool_decide (n * l = 1) then Raise ValueError
      else if bool_decide (c = num_features) then Ok s
      else Raise RuntimeError
  | _ => Raise ValueError
  end.

(** [ModelBasev1.forward] after [x = self.f(x)]; [nn.ReLU], [nn.Dropout]
    and [F.normalize] keep the shape. *)
Definition ModelBasev1_forward (feature_dim : nat) (x : list nat)
    : result (list nat) :=
  feature ← flatten x;
  out ← Linear_forward 512 feature_dim feature;
  Ok out.

(** [ModelBasev2.forward] after [x = self.f(x)]. *)
Definition ModelBasev2_forward (feature_dim : nat) (training : bool)
    (x : list nat) : result (list nat) :=
  feature ← flatten x;
  h ← Linear_forward 512 1024 feature;
  h ← BatchNorm1d_forward 1024 training h;
  out ← Linear_forward 1024 feature_dim h;
  Ok out.

(** [SimCLRv1.forward] after [x = self.f(x)]: the shapes of the two
    tensors it returns. *)
Definition SimCLRv1_forward (feature_dim : nat) (training : bool)
    (x : list nat) : result (list nat * list nat) :=
  feature ← flatten x;
  h ← Linear_forward 2048 512 feature;
  h ← BatchNorm1d_forward 512 training h;
  out ← Linear_forward 512 feature_dim h;
  Ok (feature, out).

(** The two projection stages of [SimCLRv2]. *)
Definition SimCLRv2_g1 (training : bool) (s : list nat) : result (list nat) :=
  h ← Linear_forward 2048 1024 s;
  BatchNorm1d_forward 1024 training h.

Definition SimCLRv2_g2 (feature_dim : nat) (training : bool) (s : list nat)
    : result (list nat) :=
  h ← Linear_forward 1024 512 s;
  h ← BatchNorm1d_forward 512 training h;
  Linear_forward 512 feature_dim h.

Definition SimCLRv2_forward (feature_dim : nat) (training : bool)
    (x : list nat) : result (list nat * list nat) :=
  feature ← flatten x;
  h ← SimCLRv2_g1 training feature;
  out ← SimCLRv2_g2 feature_dim training h;
  Ok (feature, out).

(** [Net.forward] of linear.py; [trunk_out] is the shape the trunk of the
    pretrained model returns. For the tag simclrv2 the encoder is
    [nn.Sequential(base.f, base.g1)]. *)
Definition Net_forward (self : Linear.Net) (training : bool)
    (trunk_out : list nat) : result (list nat) :=
  x ← match Linear.f self with
      | Linear.SimCLRv2_f_g1 => SimCLRv2_g1 training trunk_out
      | _ => Ok trunk_out
      end;
  feature ← flatten x;
  Linear_forward (Linear.in_features (Linear.fc self))
    (Linear.out_features (Linear.fc self)) feature.

(** [x.view(-1, known...)]: the size inferred for the free dimension. *)
Definition view_infer (elements known : nat) : result nat :=
  if bool_decide (known = 0) then Raise RuntimeError
  else if bool_decide (elements mod known = 0) then Ok (elements / known)
  else Raise RuntimeError.

(** [SplitBatchNorm.forward] on an input of shape [(N, C, H, W)], for a
    layer that tracks running statistics (the default). *)
Definition SplitBatchNorm_forward (num_features num_splits : nat)
    (training : bool) (N C H W : nat) : result (nat * nat * nat * nat) :=
  if training then
    n ← view_infer (N * C * H * W) (C * num_splits * H * W);
    if bool_decide (n * (H * W) = 1) then Raise ValueError
    else if bool_decide (C * num_splits = num_features * num_splits) then
      Ok (N, C, H, W)
    else Raise RuntimeError
  else
    if bool_decide (C = num_features) then Ok (N, C, H, W)
    else Raise RuntimeError.

(** The kinds of module the construction of a trunk tells apart. *)
Inductive layer : Type :=
  | Conv2d (in_channels out_channels kernel_size stride padding : nat)
      (bias : bool)
  | LinearLayer (in_features out_features : nat)
  | MaxPool2d
  | OtherLayer (tag : nat).

(** The loop over [named_children()] in the constructors of
    [ModelBasev1], [ModelBasev2], [SimCLRv1] and [SimCLRv2]. *)
Definition trunk (named_children : list (string * layer)) : list layer :=
  omap (λ '(name, module),
          let module :=
            if String.eqb name "conv1" then Conv2d 3 64 3 1 1 false
            else module in
          match module with
          | LinearLayer _ _ | MaxPool2d => None
          | _ => Some module
          end) named_children.
End Shapes.

(** ** Further concrete inputs *)

Module MoreExamples.
(** [argsort(row, descending=True)] by insertion, for a comparison [leb]
    of scores. *)
Fixpoint insert_descending {F} (leb : F → F → bool) (p : F * nat)
    (l : list (F * nat)) : list (F * nat) :=
  match l with
  | [] => [p]
  | p' :: l' => if leb p'.1 p.1 then p :: l
               else p' :: insert_descending leb p l'
  end.

Definition argsort_descending_by {F} (leb : F → F → bool) (row : list F)
    : list nat :=
  snd <$> foldr (insert_descending leb) [] (zip row (seq 0 (length row))).

(** A network that returns its samples as their scores, and counts the
    batches it was trained on. *)
Definition score_net (n : nat) (samples : list (list Q))
    : result (list (list Q)) * nat :=
  (Ok samples, n).

(** A criterion that adds up the scores of the target classes: a target
    that is not a class is an [IndexError]. *)
Definition target_score (out : list (list Q)) (target : list nat) : result Q :=
  match mapM (λ p : list Q * nat, p.1 !! p.2) (zip out target) with
  | Some scores => Ok (foldr Qplus 0%Q scores)
  | None => Raise IndexError
  end.

Definition count_batch (o : unit) (n : nat) (d : list (list Q) * list nat)
    : result () * (unit * nat) :=
  (Ok (), (o, S n)).

Definition scores3 : list (list Q) :=
  [[(1 # 10)%Q; (7 # 10)%Q; (2 # 10)%Q]; [(5 # 10)%Q; (3 # 10)%Q; (2 # 10)%Q]].

(** An encoder whose embeddings have two entries whatever its input:
    the products of [scale_net], cut or filled with zeros to width two. *)
Definition scale_pad_net (ps : list (tensor R)) (x : list (list R)) : batch R :=
  (λ row, take 2 (row ++ [0%R; 0%R])) <$> Examples.scale_net ps x.

(** Two steps on one image per view. *)
Definition two_steps : list (@step_input (list R)) :=
  [(Examples.view_a, Examples.view_b, [0], [0]);
   (Examples.view_b, Examples.view_a, [0], [0])].
End MoreExamples.

Definition key_le (p p' : nat * nat) : Prop := p.1 ≤ p'.1.

(** * Theorems *)

(** ** Momentum update *)

Section MomentumUpdate.
Context {F : Type} `{Scalar F}.
Local Open Scope scalar_scope.

Lemma momentum_loop_length (m0 : F) (qs ks : list (param F)) :
  length (MoCov1.momentum_loop m0 qs ks) = length ks.
Proof.
  revert ks. induction qs as [|pq qs IH]; intros [|pk ks]; simpl; auto.
Qed.

Lemma momentum_loop_lookup (m0 : F) (qs ks : list (param F)) (i : nat)
    (pq pk : param F) :
  qs !! i = Some pq → ks !! i = Some pk →
  MoCov1.momentum_loop m0 qs ks !! i = Some (MoCov1.momentum_param m0 pq pk).
Proof.
  revert ks i. induction qs as [|q0 qs IH]; intros [|k0 ks] [|i]; simpl;
    try discriminate.
  - by intros [= ->] [= ->].
  - apply IH.
Qed.

(** Key parameters beyond the last query parameter are not visited. *)
Lemma momentum_loop_lookup_unpaired (m0 : F) (qs ks : list (param F)) (i : nat) :
  qs !! i = None → MoCov1.momentum_loop m0 qs ks !! i = ks !! i.
Proof.
  revert ks i. induction qs as [|q0 qs IH]; intros [|k0 ks] [|i]; simpl;
    try done.
  apply IH.
Qed.

Lemma momentum_param_lookup (m0 : F) (pq pk : param F) (j : nat) (q k : F) :
  data pq !! j = Some q → data pk !! j = Some k →
  data (MoCov1.momentum_param m0 pq pk) !! j = Some (k * m0 + q * (s_one - m0)).
Proof.
  intros Hq Hk. unfold MoCov1.momentum_param, tensor_add, tensor_scale. simpl.
  rewrite lookup_zip_with, !list_lookup_fmap, Hq, Hk. reflexivity.
Qed.

Lemma momentum_param_length (m0 : F) (pq pk : param F) :
  length (data pq) = length (data pk) →
  length (data (MoCov1.momentum_param m0 pq pk)) = length (data pk).
Proof.
  intros Hlen. unfold MoCov1.momentum_param, tensor_add, tensor_scale. simpl.
  rewrite length_zip_with, !length_fmap. lia.
Qed.

(** C1. One execution of the momentum update succeeds; for every pair of
    a query parameter [pq] and a key parameter [pk] at one position of
    the two parameter lists, and every element position [j] of the two
    tensors, the new key element is [k * m + q * (1 - m)]; a key tensor
    of the shape of its query tensor keeps its shape; the query
    parameters (and every other attribute of the model, and the
    gradient flags of the key parameters) are left as they were. The
    momentum coefficient is arbitrary, in particular any value of the
    open unit interval. *)
Theorem momentum_update_key_encoder_blend (self : moco F) (i j : nat)
    (pq pk : param F) (q k : F) :
  encoder_q self !! i = Some pq →
  encoder_k self !! i = Some pk →
  data pq !! j = Some q →
  data pk !! j = Some k →
  let out := MoCov1._momentum_update_key_encoder self in
  out.1 = Ok () ∧
  (∃ pk', encoder_k out.2 !! i = Some pk' ∧
          data pk' !! j = Some (k * m self + q * (s_one - m self)) ∧
          (length (data pq) = length (data pk) →
           length (data pk') = length (data pk)) ∧
          requires_grad pk' = requires_grad pk ∧ grad pk' = grad pk) ∧
  length (encoder_k out.2) = length (encoder_k self) ∧
  encoder_q out.2 = encoder_q self ∧
  (K out.2, m out.2, T out.2, queue out.2, queue_ptr out.2)
    = (K self, m self, T self, queue self, queue_ptr self).
Proof.
  intros Hq Hk Hqj Hkj. simpl. split; [reflexivity|]. split.
  - exists (MoCov1.momentum_param (m self) pq pk). split.
    + by apply momentum_loop_lookup.
    + split; [by apply momentum_param_lookup|].
      split; [apply momentum_param_length|]. done.
  - split; [apply momentum_loop_length|]. done.
Qed.
End MomentumUpdate.

(** ** Batch shuffle and its inverse *)

Section Shuffle.

Lemma insert_by_key_perm (p : nat * nat) (l : list (nat * nat)) :
  insert_by_key p l ≡ₚ p :: l.
Proof.
  induction l as [|p' l IH]; simpl; [done|].
  case_bool_decide; [done|]. rewrite IH. apply Permutation_swap.
Qed.

Lemma sort_by_key_perm (l : list (nat * nat)) : sort_by_key l ≡ₚ l.
Proof.
  induction l as [|p l IH]; simpl; [done|].
  rewrite insert_by_key_perm. by rewrite IH.
Qed.

Lemma insert_by_key_sorted (p : nat * nat) (l : list (nat * nat)) :
  Sorted key_le l → Sorted key_le (insert_by_key p l).
Proof.
  induction 1 as [|p' l Hs IH Hhd]; simpl.
  - repeat constructor.
  - case_bool_decide as Hle.
    + constructor; [by constructor|]. by constructor.
    + constructor; [exact IH|].
      assert (key_le p' p) by (unfold key_le; lia).
      destruct Hhd as [|p'' l' Hp'']; simpl; [by constructor|].
      case_bool_decide; by constructor.
Qed.

Lemma sort_by_key_sorted (l : list (nat * nat)) : Sorted key_le (sort_by_key l).
Proof.
  induction l as [|p l IH]; simpl; [constructor|].
  by apply insert_by_key_sorted.
Qed.

Lemma Sorted_key_le_fst (l : list (nat * nat)) :
  Sorted key_le l → Sorted le (l.*1).
Proof.
  induction 1 as [|p l Hs IH Hhd]; simpl; constructor; [done|].
  destruct Hhd; simpl; by constructor.
Qed.

Lemma Sorted_le_seq (a n : nat) : Sorted le (seq a n).
Proof.
  revert a. induction n as [|n IH]; intros a; simpl; constructor; [apply IH|].
  destruct n; simpl; constructor. lia.
Qed.

(** The values of a permutation of [0 .. n-1], once sorted, are
    [0 .. n-1]. *)
Lemma sort_by_key_keys (v : list nat) :
  v ≡ₚ seq 0 (length v) →
  (sort_by_key (zip v (seq 0 (length v)))).*1 = seq 0 (length v).
Proof.
  intros Hperm. apply (Sorted_unique le).
  - apply Sorted_key_le_fst, sort_by_key_sorted.
  - apply Sorted_le_seq.
  - rewrite sort_by_key_perm, fst_zip; [done|]. by rewrite length_seq.
Qed.

(** Each entry of the sorted list pairs a value with a position where
    the input holds that value. *)
Lemma sort_by_key_entries (v : list nat) (t a i : nat) :
  sort_by_key (zip v (seq 0 (length v))) !! t = Some (a, i) → v !! i = Some a.
Proof.
  intros Ht. apply list_elem_of_lookup_2 in Ht.
  rewrite sort_by_key_perm in Ht.
  apply list_elem_of_lookup_1 in Ht as [j Hj].
  apply lookup_zip_with_Some in Hj as (x & y & [= -> ->] & Hx & Hy).
  apply lookup_seq in Hy as [-> _]. exact Hx.
Qed.

Lemma argsort_length (v : list nat) : length (argsort v) = length v.
Proof.
  unfold argsort. rewrite length_fmap, sort_by_key_perm.
  rewrite length_zip_with, length_seq. lia.
Qed.

(** [argsort] of a permutation is a right inverse of it ... *)
Lemma argsort_shuffle (v : list nat) (t : nat) :
  v ≡ₚ seq 0 (length v) → t < length v →
  ∃ i, argsort v !! t = Some i ∧ v !! i = Some t.
Proof.
  intros Hperm Ht.
  destruct (lookup_lt_is_Some_2 (argsort v) t) as [i Hi];
    [by rewrite argsort_length|].
  exists i. split; [done|].
  unfold argsort in Hi. rewrite list_lookup_fmap in Hi.
  destruct (sort_by_key (zip v (seq 0 (length v))) !! t) as [[a i']|] eqn:HL;
    simplify_eq/=.
  assert (a = t) as ->.
  { pose proof (sort_by_key_keys v Hperm) as Hkeys.
    apply (f_equal (λ l, l !! t)) in Hkeys.
    rewrite list_lookup_fmap, HL, lookup_seq_lt in Hkeys by done.
    by simplify_eq/=. }
  by eapply sort_by_key_entries.
Qed.

(** ... and a left inverse. *)
Lemma shuffle_argsort (v : list nat) (j t : nat) :
  v ≡ₚ seq 0 (length v) → v !! j = Some t → argsort v !! t = Some j.
Proof.
  intros Hperm Hj.
  assert (t < length v) as Ht.
  { apply list_elem_of_lookup_2 in Hj. rewrite Hperm in Hj.
    apply elem_of_seq in Hj. lia. }
  destruct (argsort_shuffle v t Hperm Ht) as (i & Hi & Hvi).
  assert (NoDup v) as Hnd by (rewrite Hperm; apply NoDup_seq).
  by rewrite (NoDup_lookup v i j t Hnd Hvi Hj) in Hi.
Qed.

Lemma argsort_perm (v : list nat) :
  v ≡ₚ seq 0 (length v) → argsort v ≡ₚ seq 0 (length v).
Proof.
  intros _. unfold argsort. rewrite sort_by_key_perm, snd_zip; [done|].
  by rewrite length_seq.
Qed.

Lemma index_rows_Ok {A} (x : list A) (idx : list nat) (rows : list A) :
  index_rows x idx = Ok rows ↔
  Forall2 (λ i y, x !! i = Some y) idx rows.
Proof.
  unfold index_rows. rewrite <- mapM_Some.
  destruct (mapM _ idx); split; intros; simplify_eq; done.
Qed.

Lemma index_rows_lookup {A} (x : list A) (idx : list nat) (rows : list A)
    (j i : nat) :
  index_rows x idx = Ok rows → idx !! j = Some i → rows !! j = x !! i.
Proof.
  rewrite index_rows_Ok. intros Hall Hj.
  destruct (Forall2_lookup_l _ _ _ _ _ Hall Hj) as (y & Hy & Hxy). congruence.
Qed.

Lemma index_rows_in_range {A} (x : list A) (idx : list nat) :
  Forall (λ i, i < length x) idx → ∃ rows, index_rows x idx = Ok rows.
Proof.
  intros Hall. unfold index_rows.
  destruct (mapM_is_Some_2 (λ i, x !! i) idx) as [rows ->]; [|eauto].
  eapply Forall_impl; [exact Hall|]. intros i Hi. by apply lookup_lt_is_Some_2.
Qed.

Lemma index_rows_seq {A} (x rows : list A) :
  index_rows x (seq 0 (length x)) = Ok rows → rows = x.
Proof.
  rewrite index_rows_Ok. intros Hall.
  pose proof (Forall2_length _ _ _ Hall) as Hlen. rewrite length_seq in Hlen.
  apply list_eq. intros i. destruct (decide (i < length x)) as [Hi|Hi].
  - destruct (Forall2_lookup_l _ _ _ i i Hall) as (y & -> & Hy);
      [by apply lookup_seq_lt|]. done.
  - rewrite !lookup_ge_None_2 by lia. done.
Qed.

Lemma index_rows_perm {A} (x : list A) (idx : list nat) (rows : list A) :
  idx ≡ₚ seq 0 (length x) → index_rows x idx = Ok rows → rows ≡ₚ x.
Proof.
  rewrite index_rows_Ok. intros Hperm Hall.
  destruct (Permutation_Forall2 Hperm Hall) as (rows' & Hrows & Hall').
  apply index_rows_Ok, index_rows_seq in Hall'. by subst.
Qed.

Lemma shuffle_unshuffle_inverse {A} (B : list A) (idx_shuffle : list nat) :
  idx_shuffle ≡ₚ seq 0 (length B) →
  ∃ (B_ : list A) (idx_unshuffle : list nat),
    MoCov1._batch_shuffle_single_gpu B idx_shuffle = Ok (B_, idx_unshuffle) ∧
    MoCov1._batch_unshuffle_single_gpu B_ idx_unshuffle = Ok B ∧
    B_ ≡ₚ B ∧
    idx_unshuffle = argsort idx_shuffle ∧
    idx_unshuffle ≡ₚ seq 0 (length B) ∧
    (∀ j i, idx_shuffle !! j = Some i → idx_unshuffle !! i = Some j) ∧
    (∀ i j, idx_unshuffle !! i = Some j → idx_shuffle !! j = Some i).
Proof.
  intros Hperm.
  assert (length idx_shuffle = length B) as Hlen.
  { by rewrite Hperm, length_seq. }
  assert (idx_shuffle ≡ₚ seq 0 (length idx_shuffle)) as Hperm'
    by (by rewrite Hlen).
  destruct (index_rows_in_range B idx_shuffle) as [B_ HB_].
  { rewrite Hperm. apply Forall_forall. intros i Hi%elem_of_seq. lia. }
  assert (∀ i j, argsort idx_shuffle !! i = Some j → idx_shuffle !! j = Some i)
    as Hinv.
  { intros i j Hi.
    assert (i < length idx_shuffle) as Hlt.
    { rewrite <- argsort_length. by eapply lookup_lt_Some. }
    destruct (argsort_shuffle idx_shuffle i Hperm' Hlt) as (j' & Hj' & Hv).
    congruence. }
  exists B_, (argsort idx_shuffle). repeat split.
  - unfold MoCov1._batch_shuffle_single_gpu. by rewrite HB_.
  - unfold MoCov1._batch_unshuffle_single_gpu. apply index_rows_Ok.
    apply Forall2_same_length_lookup_2; [by rewrite argsort_length|].
    intros t i y Hi Hy. rewrite <- Hy.
    eapply index_rows_lookup; [exact HB_|]. by apply Hinv.
  - by eapply index_rows_perm.
  - rewrite <- Hlen. by apply argsort_perm.
  - intros j i Hj. by apply shuffle_argsort.
  - exact Hinv.
Qed.

(** C4. For every batch [B] and every draw [idx_shuffle] of
    [randperm(len(B))] (a list holding each batch position exactly
    once), the shuffle succeeds, the unshuffle of its two results
    succeeds and gives back [B] in its original order; the shuffled
    batch is a rearrangement of [B]; the returned index is the argsort of
    the shuffle index, is itself a permutation of the batch positions,
    and is the inverse of the shuffle index in both directions. *)
Theorem batch_shuffle_unshuffle_roundtrip {A} (B : list A)
    (idx_shuffle : list nat) :
  idx_shuffle ≡ₚ seq 0 (length B) →
  ∃ (B_ : list A) (idx_unshuffle : list nat),
    MoCov1._batch_shuffle_single_gpu B idx_shuffle = Ok (B_, idx_unshuffle) ∧
    MoCov1._batch_unshuffle_single_gpu B_ idx_unshuffle = Ok B ∧
    B_ ≡ₚ B ∧
    idx_unshuffle = argsort idx_shuffle ∧
    idx_unshuffle ≡ₚ seq 0 (length B) ∧
    (∀ j i, idx_shuffle !! j = Some i → idx_unshuffle !! i = Some j) ∧
    (∀ i j, idx_unshuffle !! i = Some j → idx_shuffle !! j = Some i).
Proof. apply shuffle_unshuffle_inverse. Qed.

Lemma batch_shuffle_unshuffle_roundtrip_witness :
  ∃ (B_ : list nat) (idx_unshuffle : list nat),
    MoCov1._batch_shuffle_single_gpu [10; 11; 12; 13] [2; 0; 3; 1]
      = Ok (B_, idx_unshuffle) ∧
    MoCov1._batch_unshuffle_single_gpu B_ idx_unshuffle = Ok [10; 11; 12; 13] ∧
    B_ ≡ₚ [10; 11; 12; 13] ∧
    idx_unshuffle = argsort [2; 0; 3; 1] ∧
    idx_unshuffle ≡ₚ seq 0 4 ∧
    (∀ j i, [2; 0; 3; 1] !! j = Some i → idx_unshuffle !! i = Some j) ∧
    (∀ i j, idx_unshuffle !! i = Some j → [2; 0; 3; 1] !! j = Some i).
Proof.
  apply (batch_shuffle_unshuffle_roundtrip [10; 11; 12; 13] [2; 0; 3; 1]).
  simpl. rewrite (Permutation_swap 0 2 [3; 1]). apply perm_skip.
  rewrite (Permutation_swap 1 3 []). rewrite (Permutation_swap 1 2 [3]).
  done.
Defined.

End Shuffle.

(** ** The negative queue *)

Section Queue.
Context {F : Type} `{Scalar F}.

Lemma aligned_block_fits (ptr b K0 : nat) :
  0 < b → K0 mod b = 0 → ptr mod b = 0 → ptr < K0 → ptr + b ≤ K0.
Proof.
  intros Hb HK Hptr Hlt.
  apply Nat.Div0.mod_divides in HK as [c ->].
  apply Nat.Div0.mod_divides in Hptr as [p ->].
  assert (p < c) by nia. nia.
Qed.

Lemma advance_aligned (ptr b K0 : nat) :
  0 < b → K0 mod b = 0 → ptr mod b = 0 → ptr + b ≤ K0 →
  ((ptr + b) mod K0) mod b = 0 ∧ (ptr + b) mod K0 < K0.
Proof.
  intros Hb HK Hptr Hfit.
  split; [|apply Nat.mod_upper_bound; clear -Hb Hfit; lia].
  destruct (decide (ptr + b = K0)) as [<-|Hne].
  - rewrite Nat.Div0.mod_same. apply Nat.Div0.mod_0_l.
  - rewrite (Nat.mod_small (ptr + b) K0) by (clear -Hfit Hne; lia).
    rewrite <- Nat.Div0.add_mod_idemp_l, Hptr. simpl. apply Nat.Div0.mod_same.
Qed.

Lemma of_width_app {A} (dim : nat) (l1 l2 : list (list A)) :
  of_width dim (l1 ++ l2) ↔ of_width dim l1 ∧ of_width dim l2.
Proof. apply Forall_app. Qed.

Lemma of_width_block {A} (dim ptr b : nat) (q keys : list (list A)) :
  of_width dim q → of_width dim keys →
  of_width dim (take ptr q ++ keys ++ drop b q).
Proof.
  intros Hq Hkeys. apply of_width_app. split; [by apply Forall_take|].
  apply of_width_app. split; [done|]. by apply Forall_drop.
Qed.

Lemma assign_slice_same (dim : nat) (slice : list (embedding F)) :
  of_width dim slice →
  ∀ keys : batch F,
    of_width dim keys → length keys = length slice →
    MoCov1.assign_slice slice keys = Ok keys.
Proof.
  induction 1 as [|column slice Hcolumn Hslice IH]; intros keys Hkeys Hlen.
  - by destruct keys.
  - destruct keys as [|key keys]; [done|].
    apply Forall_cons in Hkeys as [Hkey Hkeys].
    cbn [MoCov1.assign_slice]. unfold MoCov1.assign_column.
    rewrite bool_decide_eq_true_2 by congruence.
    cbn [mbind result_bind]. rewrite IH; [done|done|].
    simpl in Hlen. lia.
Qed.

Lemma assign_slice_broadcast (dim : nat) (slice : list (embedding F)) :
  of_width dim slice →
  ∀ keys : batch F,
    of_width 1 keys → length keys = length slice →
    MoCov1.assign_slice slice keys
      = Ok ((λ key, replicate dim (default s_zero (head key))) <$> keys).
Proof.
  induction 1 as [|column slice Hcolumn Hslice IH]; intros keys Hkeys Hlen.
  - by destruct keys.
  - destruct keys as [|key keys]; [done|].
    apply Forall_cons in Hkeys as [Hkey Hkeys].
    destruct key as [|v [|v' key]]; try done.
    cbn [MoCov1.assign_slice]. unfold MoCov1.assign_column.
    rewrite IH; [|done|simpl in Hlen; lia].
    case_bool_decide as Hone.
    + cbn [mbind result_bind fmap list_fmap head default].
      simpl in Hone. rewrite <- Hcolumn, <- Hone. done.
    + cbn [mbind result_bind fmap list_fmap head default].
      do 2 f_equal. rewrite <- Hcolumn. by apply const_fmap.
Qed.

Lemma assign_slice_mismatch (dim width : nat) (slice : list (embedding F))
    (keys : batch F) :
  of_width dim slice → of_width width keys →
  slice ≠ [] → keys ≠ [] → width ≠ dim → width ≠ 1 →
  MoCov1.assign_slice slice keys = Raise RuntimeError.
Proof.
  intros Hslice Hkeys Hs Hk Hdim Hone.
  destruct slice as [|column slice]; [done|].
  destruct keys as [|key keys]; [done|].
  apply Forall_cons in Hslice as [Hcolumn _].
  apply Forall_cons in Hkeys as [Hkey _].
  cbn [MoCov1.assign_slice]. unfold MoCov1.assign_column.
  rewrite bool_decide_eq_false_2 by congruence.
  by destruct key as [|v [|v' key]].
Qed.

Lemma assign_slice_length (slice : list (embedding F)) :
  ∀ (source : batch F) (columns : list (embedding F)),
    length source = length slice →
    MoCov1.assign_slice slice source = Ok columns →
    length columns = length slice.
Proof.
  induction slice as [|column slice IH]; intros source columns Hlen Hassign.
  - simpl in Hassign. by simplify_eq.
  - destruct source as [|key source]; [done|].
    cbn [MoCov1.assign_slice] in Hassign.
    destruct (MoCov1.assign_column column key); [|done].
    cbn [mbind result_bind] in Hassign.
    destruct (MoCov1.assign_slice slice source) as [columns'|] eqn:Hrest; [|done].
    cbn [mbind result_bind] in Hassign. simplify_eq. simpl.
    f_equal. apply (IH source); [simpl in Hlen; lia|done].
Qed.

Lemma slice_length (q : list (embedding F)) (ptr b : nat) :
  ptr + b ≤ length q → length (take b (drop ptr q)) = b.
Proof. intros Hfit. rewrite length_take, length_drop. lia. Qed.

Lemma assign_columns_fits (dim : nat) (q : list (embedding F)) (ptr : nat)
    (keys : batch F) :
  of_width dim q → of_width dim keys →
  ptr + length keys ≤ length q →
  MoCov1.assign_columns q ptr keys
    = Ok (take ptr q ++ keys ++ drop (ptr + length keys) q).
Proof.
  intros Hq Hkeys Hfit. unfold MoCov1.assign_columns. cbv zeta.
  pose proof (slice_length q ptr (length keys) Hfit) as Hslice.
  rewrite bool_decide_eq_true_2 by done. cbn [mbind result_bind].
  rewrite (assign_slice_same dim); [|by apply Forall_take, Forall_drop|done|done].
  cbn [mbind result_bind]. by rewrite Hslice.
Qed.

Lemma assign_columns_broadcast (dim : nat) (q : list (embedding F)) (ptr : nat)
    (keys : batch F) :
  of_width dim q → of_width 1 keys →
  ptr + length keys ≤ length q →
  MoCov1.assign_columns q ptr keys
    = Ok (take ptr q
          ++ ((λ key, replicate dim (default s_zero (head key))) <$> keys)
          ++ drop (ptr + length keys) q).
Proof.
  intros Hq Hkeys Hfit. unfold MoCov1.assign_columns. cbv zeta.
  pose proof (slice_length q ptr (length keys) Hfit) as Hslice.
  rewrite bool_decide_eq_true_2 by done. cbn [mbind result_bind].
  rewrite (assign_slice_broadcast dim);
    [|by apply Forall_take, Forall_drop|done|done].
  cbn [mbind result_bind]. by rewrite Hslice.
Qed.

Lemma assign_columns_mismatch (dim width : nat) (q : list (embedding F))
    (ptr : nat) (keys : batch F) :
  of_width dim q → of_width width keys →
  0 < length keys → ptr + length keys ≤ length q →
  width ≠ dim → width ≠ 1 →
  MoCov1.assign_columns q ptr keys = Raise RuntimeError.
Proof.
  intros Hq Hkeys Hb Hfit Hdim Hone. unfold MoCov1.assign_columns. cbv zeta.
  pose proof (slice_length q ptr (length keys) Hfit) as Hslice.
  rewrite bool_decide_eq_true_2 by done. cbn [mbind result_bind].
  rewrite (assign_slice_mismatch dim width); [done| |done| | |done|done].
  - by apply Forall_take, Forall_drop.
  - intros Hnil. rewrite Hnil in Hslice. simpl in Hslice. lia.
  - intros Hnil. rewrite Hnil in Hb. simpl in Hb. lia.
Qed.

Lemma assign_columns_overflow (q : list (embedding F)) (ptr : nat) (keys : batch F) :
  length q < ptr + length keys → 1 < length keys →
  MoCov1.assign_columns q ptr keys = Raise RuntimeError.
Proof.
  intros Hover Hb. unfold MoCov1.assign_columns. cbv zeta.
  rewrite bool_decide_eq_false_2.
  - rewrite bool_decide_eq_false_2; [done|lia].
  - rewrite length_take, length_drop. lia.
Qed.

(** An assignment that returns keeps the number of columns. *)
Lemma assign_columns_length (q q' : list (embedding F)) (ptr : nat)
    (keys : batch F) :
  MoCov1.assign_columns q ptr keys = Ok q' → length q' = length q.
Proof.
  unfold MoCov1.assign_columns. cbv zeta. intros Hassign.
  set (slice := take (length keys) (drop ptr q)) in *.
  assert (∀ source columns,
            length source = length slice →
            MoCov1.assign_slice slice source = Ok columns →
            length (take ptr q ++ columns ++ drop (ptr + length slice) q)
              = length q) as Hlen.
  { intros source columns Hsource Hcolumns.
    apply assign_slice_length in Hcolumns; [|done].
    rewrite !length_app, length_take, length_drop, Hcolumns.
    unfold slice. rewrite length_take, length_drop. lia. }
  case_bool_decide as Hfit.
  - cbn [mbind result_bind] in Hassign.
    destruct (MoCov1.assign_slice slice keys) as [columns|] eqn:Hcolumns; [|done].
    cbn [mbind result_bind] in Hassign. simplify_eq.
    by apply (Hlen keys).
  - case_bool_decide as Hone; [|done]. cbn [mbind result_bind] in Hassign.
    destruct (MoCov1.assign_slice slice _) as [columns|] eqn:Hcolumns; [|done].
    cbn [mbind result_bind] in Hassign. simplify_eq.
    eapply Hlen; [|exact Hcolumns]. by rewrite length_fmap.
Qed.

(** The ways an enqueue ends. *)
Lemma dequeue_and_enqueue_ok (dim : nat) (self : moco F) (keys : batch F) :
  length (queue self) = K self →
  of_width dim (queue self) → of_width dim keys →
  0 < length keys →
  K self mod length keys = 0 →
  queue_ptr self + length keys ≤ K self →
  MoCov1._dequeue_and_enqueue keys self
    = (Ok (),
       set_queue_ptr ((queue_ptr self + length keys) mod K self)
         (set_queue (take (queue_ptr self) (queue self) ++ keys
                       ++ drop (queue_ptr self + length keys) (queue self))
            self)).
Proof.
  intros Hq Hwq Hwk Hb Hdiv Hfit. unfold MoCov1._dequeue_and_enqueue.
  rewrite bool_decide_eq_false_2 by lia.
  rewrite (bool_decide_eq_true_2 _ Hdiv). simpl.
  rewrite (assign_columns_fits dim) by (done || lia).
  rewrite bool_decide_eq_false_2 by lia. done.
Qed.

Lemma dequeue_and_enqueue_broadcast (dim : nat) (self : moco F) (keys : batch F) :
  length (queue self) = K self →
  of_width dim (queue self) → of_width 1 keys →
  0 < length keys →
  K self mod length keys = 0 →
  queue_ptr self + length keys ≤ K self →
  MoCov1._dequeue_and_enqueue keys self
    = (Ok (),
       set_queue_ptr ((queue_ptr self + length keys) mod K self)
         (set_queue (take (queue_ptr self) (queue self)
                       ++ ((λ key, replicate dim (default s_zero (head key)))
                             <$> keys)
                       ++ drop (queue_ptr self + length keys) (queue self))
            self)).
Proof.
  intros Hq Hwq Hwk Hb Hdiv Hfit. unfold MoCov1._dequeue_and_enqueue.
  rewrite bool_decide_eq_false_2 by lia.
  rewrite (bool_decide_eq_true_2 _ Hdiv). simpl.
  rewrite (assign_columns_broadcast dim) by (done || lia).
  rewrite bool_decide_eq_false_2 by lia. done.
Qed.

Lemma dequeue_and_enqueue_mismatch (dim width : nat) (self : moco F)
    (keys : batch F) :
  length (queue self) = K self →
  of_width dim (queue self) → of_width width keys →
  0 < length keys →
  K self mod length keys = 0 →
  queue_ptr self + length keys ≤ K self →
  width ≠ dim → width ≠ 1 →
  MoCov1._dequeue_and_enqueue keys self = (Raise RuntimeError, self).
Proof.
  intros Hq Hwq Hwk Hb Hdiv Hfit Hdim Hone. unfold MoCov1._dequeue_and_enqueue.
  rewrite bool_decide_eq_false_2 by lia.
  rewrite (bool_decide_eq_true_2 _ Hdiv). simpl.
  by rewrite (assign_columns_mismatch dim width) by (done || lia).
Qed.

Lemma dequeue_and_enqueue_assertion (self : moco F) (keys : batch F) :
  0 < length keys →
  K self mod length keys ≠ 0 →
  MoCov1._dequeue_and_enqueue keys self = (Raise AssertionError, self).
Proof.
  intros Hb Hdiv. unfold MoCov1._dequeue_and_enqueue.
  rewrite bool_decide_eq_false_2 by lia.
  by rewrite (bool_decide_eq_false_2 _ Hdiv).
Qed.

Lemma dequeue_and_enqueue_overflow (self : moco F) (keys : batch F) :
  1 < length keys →
  K self mod length keys = 0 →
  length (queue self) < queue_ptr self + length keys →
  MoCov1._dequeue_and_enqueue keys self = (Raise RuntimeError, self).
Proof.
  intros Hb Hdiv Hover. unfold MoCov1._dequeue_and_enqueue.
  rewrite bool_decide_eq_false_2 by lia.
  rewrite (bool_decide_eq_true_2 _ Hdiv). simpl.
  by rewrite assign_columns_overflow.
Qed.

Lemma block_write_lookup_in (q : list (embedding F)) (ptr : nat)
    (keys : batch F) (i : nat) :
  ptr ≤ length q → i < length keys →
  (take ptr q ++ keys ++ drop (ptr + length keys) q) !! (ptr + i) = keys !! i.
Proof.
  intros Hptr Hi.
  rewrite lookup_app_r; rewrite length_take; [|lia].
  replace (ptr + i - ptr `min` length q) with i by lia.
  by rewrite lookup_app_l.
Qed.

Lemma block_write_lookup_out (q : list (embedding F)) (ptr : nat)
    (keys : batch F) (j : nat) :
  ptr + length keys ≤ length q →
  j < ptr ∨ ptr + length keys ≤ j →
  (take ptr q ++ keys ++ drop (ptr + length keys) q) !! j = q !! j.
Proof.
  intros Hfit [Hj|Hj].
  - rewrite lookup_app_l by (rewrite length_take; lia).
    by rewrite lookup_take_lt.
  - rewrite lookup_app_r; rewrite length_take; [|lia].
    rewrite lookup_app_r by lia. rewrite lookup_drop. f_equal. lia.
Qed.

Lemma dequeue_and_enqueue_writes_block (dim : nat) (self : moco F)
    (keys : batch F) :
  length (queue self) = K self →
  of_width dim (queue self) → of_width dim keys →
  0 < length keys →
  K self mod length keys = 0 →
  queue_ptr self + length keys ≤ K self →
  writes_block self keys (MoCov1._dequeue_and_enqueue keys self).
Proof.
  intros Hq Hwq Hwk Hb Hdiv Hfit. rewrite (dequeue_and_enqueue_ok dim) by done.
  unfold writes_block. simpl. split; [done|]. split; [|split; [|split]].
  - rewrite !length_app, length_take, length_drop. lia.
  - intros i Hi. apply block_write_lookup_in; lia.
  - intros j Hj. apply block_write_lookup_out; [lia|done].
  - done.
Qed.

(** One enqueue shifts the circular view: the oldest [b] columns leave,
    the keys are appended. *)
Lemma dequeue_and_enqueue_view (dim : nat) (self : moco F) (keys : batch F) :
  length (queue self) = K self →
  of_width dim (queue self) → of_width dim keys →
  0 < length keys →
  K self mod length keys = 0 →
  queue_ptr self + length keys ≤ K self →
  circular_view (MoCov1._dequeue_and_enqueue keys self).2
    = drop (length keys) (circular_view self) ++ keys.
Proof.
  intros Hq Hwq Hwk Hb Hdiv Hfit. rewrite (dequeue_and_enqueue_ok dim) by done.
  unfold circular_view. simpl.
  set (q := queue self) in *. set (ptr := queue_ptr self) in *.
  set (b := length keys) in *.
  assert (length (take ptr q) = ptr) as Htake by (rewrite length_take; lia).
  rewrite (drop_app_le (drop ptr q)) by (rewrite length_drop; lia).
  rewrite drop_drop.
  destruct (decide (ptr + b = K self)) as [Heq|Hne].
  - rewrite Heq, Nat.Div0.mod_same. simpl. rewrite drop_0.
    rewrite (drop_ge q) by lia. by rewrite !app_nil_r.
  - rewrite Nat.mod_small by lia.
    rewrite app_assoc.
    rewrite drop_app_length'; [|rewrite length_app; lia].
    rewrite take_app_length'; [|rewrite length_app; lia].
    by rewrite <- app_assoc.
Qed.

Lemma length_concat_const {A} (b : nat) (l : list (list A)) :
  Forall (λ x, length x = b) l → length (concat l) = length l * b.
Proof.
  induction 1 as [|x l Hx Hl IH]; simpl; [done|].
  rewrite length_app, IH, Hx. done.
Qed.

Lemma circular_view_length (self : moco F) :
  length (circular_view self) = length (queue self).
Proof.
  unfold circular_view. rewrite length_app, length_drop, length_take. lia.
Qed.

Lemma enqueue_all_view (dim : nat) (bs : list (batch F)) (b : nat) :
  0 < b →
  Forall (λ keys, length keys = b ∧ of_width dim keys) bs →
  ∀ self : moco F,
    length (queue self) = K self →
    of_width dim (queue self) →
    K self mod b = 0 →
    queue_ptr self mod b = 0 →
    queue_ptr self < K self →
    let out := enqueue_all bs self in
    out.1 = Ok () ∧
    circular_view out.2 = drop (length bs * b) (circular_view self ++ concat bs) ∧
    queue_ptr out.2 = (queue_ptr self + length bs * b) mod K self.
Proof.
  intros Hb. induction 1 as [|keys bs [Hkeys Hwk] Hbs IH];
    intros self Hq Hwq Hdiv Hal Hlt.
  - simpl. rewrite app_nil_r, drop_0, Nat.add_0_r.
    by rewrite Nat.mod_small.
  - pose proof (aligned_block_fits _ _ _ Hb Hdiv Hal Hlt) as Hfit.
    pose proof (advance_aligned _ _ _ Hb Hdiv Hal Hfit) as [Hal' Hlt'].
    subst b.
    pose proof (dequeue_and_enqueue_view dim self keys Hq Hwq Hwk Hb Hdiv Hfit)
      as Hview.
    cbn [enqueue_all]. unfold mbind, method_bind.
    rewrite (dequeue_and_enqueue_ok dim) in Hview |- * by done.
    set (self1 := set_queue_ptr _ _) in *.
    destruct (IH self1) as (Hok & Hv & Hp); try done.
    { simpl. rewrite !length_app, length_take, length_drop. lia. }
    { by apply of_width_block. }
    change (circular_view self1 = drop (length keys) (circular_view self) ++ keys)
      in Hview.
    split; [done|]. split.
    + rewrite Hv, Hview. cbn [length concat Nat.mul].
      rewrite <- (drop_drop _ _ (length keys)).
      rewrite <- app_assoc, (drop_app_le (circular_view self)); [done|].
      rewrite circular_view_length. lia.
    + rewrite Hp. subst self1. cbn [queue_ptr K set_queue_ptr set_queue length].
      rewrite Nat.Div0.add_mod_idemp_l. f_equal. lia.
Qed.

(** C3 (amended). Let the model hold a queue of its capacity [K], whose
    columns have [dim] entries, and let [b > 0] divide [K]. Keys are
    embeddings of [dim] entries.
    - An enqueue of [b] keys issued when the [b] columns from the pointer
      on lie inside the buffer succeeds, writes the keys into the
      columns [ptr .. ptr+b-1] in their order, leaves the other columns
      alone and moves the pointer to [(ptr + b) mod K].
    - When the pointer is a multiple of [b] (as it is while every batch
      had size [b]), any run of enqueues of batches of size [b] that
      ends with [K / b] batches [recent] succeeds, and afterwards the
      queue, read circularly from the pointer, is exactly the
      concatenation of [recent] in insertion order: everything older is
      gone. When such a run ends with the pointer at 0, the buffer
      itself is that concatenation. *)
Theorem dequeue_and_enqueue_fifo (self : moco F) (b dim : nat) :
  length (queue self) = K self →
  of_width dim (queue self) →
  0 < b →
  K self mod b = 0 →
  (∀ keys : batch F,
     length keys = b →
     of_width dim keys →
     queue_ptr self + b ≤ K self →
     writes_block self keys (MoCov1._dequeue_and_enqueue keys self)) ∧
  (queue_ptr self mod b = 0 →
   queue_ptr self < K self →
   ∀ older recent : list (batch F),
     Forall (λ keys, length keys = b ∧ of_width dim keys) (older ++ recent) →
     length recent = K self / b →
     let out := enqueue_all (older ++ recent) self in
     out.1 = Ok () ∧
     circular_view out.2 = concat recent ∧
     queue_ptr out.2 = (queue_ptr self + length older * b) mod K self ∧
     (queue_ptr out.2 = 0 → queue out.2 = concat recent)).
Proof.
  intros Hq Hwq Hb Hdiv. split.
  - intros keys <- Hwk Hfit. by apply (dequeue_and_enqueue_writes_block dim).
  - intros Hal Hlt older recent Hall Hrecent.
    destruct (enqueue_all_view dim _ b Hb Hall self Hq Hwq Hdiv Hal Hlt)
      as (Hok & Hview & Hptr).
    assert (K self = length recent * b) as HK.
    { rewrite Hrecent. apply Nat.Div0.mod_divides in Hdiv as [c Hc].
      rewrite Hc at 2. rewrite (Nat.mul_comm b c), Nat.div_mul by lia. lia. }
    assert (circular_view (enqueue_all (older ++ recent) self).2
            = concat recent) as Hfifo.
    { rewrite Hview, concat_app, app_assoc.
      apply drop_app_length'.
      apply Forall_app in Hall as [Holder _].
      rewrite !length_app, circular_view_length, Hq.
      rewrite (length_concat_const b); [lia|].
      eapply Forall_impl; [exact Holder|]. by intros keys [? _]. }
    simpl. split; [done|]. split; [done|]. split.
    + rewrite Hptr, length_app, Nat.mul_add_distr_r, Nat.add_assoc, <- HK.
      rewrite <- Nat.Div0.add_mod_idemp_r, Nat.Div0.mod_same. f_equal. lia.
    + intros H0. rewrite <- Hfifo. unfold circular_view.
      rewrite H0. simpl. by rewrite drop_0, app_nil_r.
Qed.
End Queue.

(** ** Contrastive loss *)

Section ContrastiveLoss.
Context {F : Type} `{Scalar F} `{Elementary F} {image : Type}.
Variable ModelBasev1 : list (tensor F) → list image → batch F.
Hypothesis ModelBasev1_rows : ∀ ps x, length (ModelBasev1 ps x) = length x.
Local Open Scope scalar_scope.

Lemma logits_of_lookup_Some (q k : batch F) (queue0 : list (embedding F))
    (T0 : F) (i : nat) (row : list F) :
  MoCov1.logits_of q k queue0 T0 !! i = Some row ↔
  ∃ qi ki, q !! i = Some qi ∧ k !! i = Some ki ∧
           row = dot qi ki / T0 :: ((λ c, dot qi c / T0) <$> queue0).
Proof.
  unfold MoCov1.logits_of. cbv zeta.
  rewrite list_lookup_fmap, fmap_Some. split.
  - intros (r & Hr & ->).
    apply lookup_zip_with_Some in Hr as (p & negs & -> & Hp & Hnegs).
    apply lookup_zip_with_Some in Hp as (qi & ki & -> & Hqi & Hki).
    rewrite list_lookup_fmap, Hqi in Hnegs. simplify_eq/=.
    exists qi, ki. by rewrite <- list_fmap_compose.
  - intros (qi & ki & Hqi & Hki & ->).
    exists (dot qi ki :: (dot qi <$> queue0)). split.
    + apply lookup_zip_with_Some. exists (dot qi ki), (dot qi <$> queue0).
      split; [done|]. split.
      * apply lookup_zip_with_Some. eauto.
      * by rewrite list_lookup_fmap, Hqi.
    + simpl. by rewrite <- list_fmap_compose.
Qed.

Lemma logits_of_length (q k : batch F) (queue0 : list (embedding F)) (T0 : F) :
  length k = length q →
  length (MoCov1.logits_of q k queue0 T0) = length q.
Proof.
  intros Hlen. unfold MoCov1.logits_of. cbv zeta.
  rewrite length_fmap, !length_zip_with, length_fmap. lia.
Qed.

Lemma logits_of_nonempty (q k : batch F) (queue0 : list (embedding F)) (T0 : F) :
  Forall (λ row, row ≠ []) (MoCov1.logits_of q k queue0 T0).
Proof.
  apply Forall_lookup. intros i row Hrow.
  apply logits_of_lookup_Some in Hrow as (qi & ki & _ & _ & ->). done.
Qed.

Lemma nll_rows_label0 (logits : list (list F)) :
  Forall (λ row, row ≠ []) logits →
  nll_rows logits (replicate (length logits) 0) = Ok (positive_nll <$> logits).
Proof.
  induction 1 as [|row logits Hrow Hall IH]; [done|].
  destruct row as [|v row]; [done|].
  cbn [length replicate nll_rows].
  unfold log_softmax at 1. cbn [fmap list_fmap lookup list_lookup].
  rewrite IH. done.
Qed.

Lemma CrossEntropyLoss_label0 (logits : list (list F)) :
  Forall (λ row, row ≠ []) logits →
  CrossEntropyLoss logits (replicate (length logits) 0)
    = Ok (tensor_sum (positive_nll <$> logits) / s_of_nat (length logits)).
Proof.
  intros Hall. unfold CrossEntropyLoss. by rewrite nll_rows_label0.
Qed.

(** The key branch: shuffle, encode, unshuffle. Row [i] of the result is
    the row the key encoder computed for image [i], which it met at the
    position [j] the permutation sent it to. *)
Lemma key_branch_at (ps : list (param F)) (im_k : list image)
    (idx_shuffle : list nat) (dim : nat) :
  idx_shuffle ≡ₚ seq 0 (length im_k) →
  embeds_shuffled ModelBasev1 dim ps im_k idx_shuffle →
  ∃ (im_k_ : list image) (k : batch F),
    index_rows im_k idx_shuffle = Ok im_k_ ∧
    MoCov1._batch_shuffle_single_gpu im_k idx_shuffle
      = Ok (im_k_, argsort idx_shuffle) ∧
    index_rows (MoCov1.encoder ModelBasev1 ps im_k_) (argsort idx_shuffle)
      = Ok k ∧
    length k = length im_k ∧
    of_width dim k ∧
    (∀ j i, idx_shuffle !! j = Some i →
            im_k_ !! j = im_k !! i ∧
            k !! i = MoCov1.encoder ModelBasev1 ps im_k_ !! j).
Proof.
  intros Hperm Hemb.
  destruct (shuffle_unshuffle_inverse im_k idx_shuffle Hperm)
    as (im_k_ & idx_unshuffle & Hsh & _ & Hp & -> & Hperm' & Hinv & _).
  assert (index_rows im_k idx_shuffle = Ok im_k_) as Hgather.
  { unfold MoCov1._batch_shuffle_single_gpu in Hsh.
    destruct (index_rows im_k idx_shuffle); by simplify_eq/=. }
  destruct (Hemb im_k_ Hgather) as [Hrows Hwidth].
  assert (length im_k_ = length im_k) as Hlen by (by rewrite Hp).
  set (k_ := MoCov1.encoder ModelBasev1 ps im_k_) in *.
  destruct (index_rows_in_range k_ (argsort idx_shuffle)) as [k Hk].
  { rewrite Hperm', Hrows, Hlen. apply Forall_forall.
    intros i Hi%elem_of_seq. lia. }
  exists im_k_, k. split; [done|]. split; [done|]. split; [done|].
  split; [|split].
  - apply index_rows_Ok, Forall2_length in Hk.
    by rewrite <- Hk, argsort_length, Hperm, length_seq.
  - apply index_rows_Ok in Hk. apply Forall_forall. intros row Hrow.
    apply list_elem_of_lookup_1 in Hrow as [i Hi].
    destruct (Forall2_lookup_r _ _ _ _ _ Hk Hi) as (j & _ & Hj).
    by eapply (Forall_lookup_1 _ _ _ _ Hwidth).
  - intros j i Hj. split; [by eapply index_rows_lookup|].
    eapply index_rows_lookup; [exact Hk|]. by apply Hinv.
Qed.

Lemma contrastive_loss_at (self : moco F) (im_q im_k : list image)
    (idx_shuffle : list nat) (dim : nat) :
  length im_k = length im_q →
  idx_shuffle ≡ₚ seq 0 (length im_k) →
  length (queue self) = K self →
  embeds ModelBasev1 dim (encoder_q self) im_q →
  embeds_shuffled ModelBasev1 dim (encoder_k self) im_k idx_shuffle →
  ∃ (loss : F) (im_k_ : list image) (k : batch F),
    let q := MoCov1.encoder ModelBasev1 (encoder_q self) im_q in
    let k_ := MoCov1.encoder ModelBasev1 (encoder_k self) im_k_ in
    index_rows im_k idx_shuffle = Ok im_k_ ∧
    index_rows k_ (argsort idx_shuffle) = Ok k ∧
    (∀ j i, idx_shuffle !! j = Some i →
            im_k_ !! j = im_k !! i ∧ k !! i = k_ !! j) ∧
    MoCov1.contrastive_loss ModelBasev1 im_q im_k idx_shuffle self
      = (Ok (loss, q, k), self) ∧
    length q = length im_q ∧ length k = length im_q ∧
    of_width dim q ∧ of_width dim k ∧
    let logits := MoCov1.logits_of q k (queue self) (T self) in
    length logits = length im_q ∧
    (∀ i row, logits !! i = Some row → length row = (1 + K self)%nat) ∧
    (∀ i qi ki, q !! i = Some qi → k !! i = Some ki →
       logits !! i
         = Some (dot qi ki / T self :: ((λ c, dot qi c / T self) <$> queue self))) ∧
    CrossEntropyLoss logits (replicate (length im_q) 0) = Ok loss ∧
    loss = tensor_sum (positive_nll <$> logits) / s_of_nat (length im_q) ∧
    (∀ i qi, q !! i = Some qi → k !! i = Some qi → dot qi qi = s_one →
       logits !! i ≫= head = Some (s_one / T self)).
Proof.
  intros Hlen Hperm Hqueue [Hq Hwq] Hemb.
  destruct (key_branch_at (encoder_k self) im_k idx_shuffle dim Hperm Hemb)
    as (im_k_ & k & Hgather & Hsh & Hun & Hk & Hwk & Hpos).
  set (q := MoCov1.encoder ModelBasev1 (encoder_q self) im_q) in *.
  assert (length k = length q) as Hkq by lia.
  pose proof (logits_of_length q k (queue self) (T self) Hkq) as Hrows.
  pose proof (CrossEntropyLoss_label0 _
                (logits_of_nonempty q k (queue self) (T self))) as Hce.
  rewrite Hrows, Hq in Hce.
  eexists _, im_k_, k. cbv zeta. fold q.
  split; [done|]. split; [done|]. split; [done|]. split.
  { unfold MoCov1.contrastive_loss, reading. rewrite Hsh. cbn [mbind result_bind].
    unfold MoCov1._batch_unshuffle_single_gpu. rewrite Hun.
    cbn [mbind result_bind]. fold q.
    rewrite Hrows, Hq, Hce. reflexivity. }
  split; [done|]. split; [lia|]. split; [done|]. split; [done|].
  split; [lia|]. split; [|split; [|split; [|split]]].
  - intros i row (qi & ki & _ & _ & ->)%logits_of_lookup_Some.
    cbn [length]. rewrite length_fmap. lia.
  - intros i qi ki Hqi Hki. apply logits_of_lookup_Some. eauto.
  - exact Hce.
  - reflexivity.
  - intros i qi Hqi Hki Hunit.
    assert (MoCov1.logits_of q k (queue self) (T self) !! i
            = Some (dot qi qi / T self :: ((λ c, dot qi c / T self) <$> queue self)))
      as -> by (apply logits_of_lookup_Some; eauto).
    simpl. by rewrite Hunit.
Qed.

(** The key branch for an encoder that returns one row per image on
    every batch. *)
Lemma key_branch (ps : list (param F)) (im_k : list image) (idx_shuffle : list nat) :
  idx_shuffle ≡ₚ seq 0 (length im_k) →
  ∃ (im_k_ : list image) (k : batch F),
    MoCov1._batch_shuffle_single_gpu im_k idx_shuffle
      = Ok (im_k_, argsort idx_shuffle) ∧
    im_k_ ≡ₚ im_k ∧
    MoCov1._batch_unshuffle_single_gpu (MoCov1.encoder ModelBasev1 ps im_k_)
      (argsort idx_shuffle) = Ok k ∧
    length k = length im_k ∧
    (∀ j i, idx_shuffle !! j = Some i →
            k !! i = MoCov1.encoder ModelBasev1 ps im_k_ !! j).
Proof.
  intros Hperm.
  destruct (shuffle_unshuffle_inverse im_k idx_shuffle Hperm)
    as (im_k_ & idx_unshuffle & Hsh & _ & Hp & -> & Hperm' & Hinv & _).
  assert (length im_k_ = length im_k) as Hlen by (by rewrite Hp).
  set (k_ := MoCov1.encoder ModelBasev1 ps im_k_).
  assert (length k_ = length im_k) as Hk_.
  { unfold k_, MoCov1.encoder. by rewrite ModelBasev1_rows. }
  destruct (index_rows_in_range k_ (argsort idx_shuffle)) as [k Hk].
  { rewrite Hperm', Hk_. apply Forall_forall. intros i Hi%elem_of_seq. lia. }
  exists im_k_, k. repeat split; try done.
  - apply index_rows_Ok, Forall2_length in Hk.
    by rewrite <- Hk, argsort_length, Hperm, length_seq.
  - intros j i Hj. eapply index_rows_lookup; [exact Hk|]. by apply Hinv.
Qed.

Lemma contrastive_loss_run (self : moco F) (im_q im_k : list image)
    (idx_shuffle : list nat) :
  length im_k = length im_q →
  idx_shuffle ≡ₚ seq 0 (length im_k) →
  length (queue self) = K self →
  ∃ (loss : F) (q k : batch F),
    MoCov1.contrastive_loss ModelBasev1 im_q im_k idx_shuffle self
      = (Ok (loss, q, k), self) ∧
    q = MoCov1.encoder ModelBasev1 (encoder_q self) im_q ∧
    length q = length im_q ∧ length k = length im_q ∧
    let logits := MoCov1.logits_of q k (queue self) (T self) in
    length logits = length im_q ∧
    (∀ i row, logits !! i = Some row → length row = (1 + K self)%nat) ∧
    (∀ i qi ki, q !! i = Some qi → k !! i = Some ki →
       logits !! i
         = Some (dot qi ki / T self :: ((λ c, dot qi c / T self) <$> queue self))) ∧
    CrossEntropyLoss logits (replicate (length im_q) 0) = Ok loss ∧
    loss = tensor_sum (positive_nll <$> logits) / s_of_nat (length im_q) ∧
    (∀ i qi, q !! i = Some qi → k !! i = Some qi → dot qi qi = s_one →
       logits !! i ≫= head = Some (s_one / T self)).
Proof.
  intros Hlen Hperm Hqueue.
  destruct (key_branch (encoder_k self) im_k idx_shuffle Hperm)
    as (im_k_ & k & Hsh & _ & Hun & Hk & _).
  set (q := MoCov1.encoder ModelBasev1 (encoder_q self) im_q).
  assert (length q = length im_q) as Hq.
  { unfold q, MoCov1.encoder. by rewrite ModelBasev1_rows. }
  assert (length k = length q) as Hkq by lia.
  pose proof (logits_of_length q k (queue self) (T self) Hkq) as Hrows.
  pose proof (CrossEntropyLoss_label0 _
                (logits_of_nonempty q k (queue self) (T self))) as Hce.
  rewrite Hrows, Hq in Hce.
  eexists _, q, k. split.
  { unfold MoCov1.contrastive_loss, reading. rewrite Hsh. cbn [mbind result_bind].
    rewrite Hun. cbn [mbind result_bind]. fold q.
    rewrite Hrows, Hq, Hce. reflexivity. }
  split; [done|]. split; [done|]. split; [lia|]. cbv zeta.
  split; [lia|]. split; [|split; [|split; [|split]]].
  - intros i row (qi & ki & _ & _ & ->)%logits_of_lookup_Some.
    cbn [length]. rewrite length_fmap. lia.
  - intros i qi ki Hqi Hki. apply logits_of_lookup_Some. eauto.
  - exact Hce.
  - reflexivity.
  - intros i qi Hqi Hki Hunit.
    assert (MoCov1.logits_of q k (queue self) (T self) !! i
            = Some (dot qi qi / T self :: ((λ c, dot qi c / T self) <$> queue self)))
      as -> by (apply logits_of_lookup_Some; eauto).
    simpl. by rewrite Hunit.
Qed.
(** C5. Let the query batch and the key batch hold [N] images each, let
    the queue hold [K] columns of [dim] entries, and let the query
    encoder on the query batch and the key encoder on the shuffled key
    batch return one embedding of [dim] entries per image. Then
    [contrastive_loss] succeeds and leaves the model as it is. It
    returns the query embeddings [q] of the query batch and the key
    embeddings [k] of the key batch: row [i] of [k] is the row the key
    encoder computed for image [i] of the key batch, at the position the
    permutation sent it to. The loss it returns is computed as follows:
    the logits have [N] rows of [1 + K] entries; row [i] holds first
    [q_i . k_i / T], then [q_i . c / T] for every queue column [c] in
    the order of the queue; the loss is the cross-entropy of these
    logits with label 0 for every row (the mean over the rows of minus
    the log-softmax of the first entry). Where [k_i = q_i] and
    [q_i . q_i = 1], the first entry of row [i] is [1 / T]. *)
Theorem contrastive_loss_logits (self : moco F) (im_q im_k : list image)
    (idx_shuffle : list nat) (dim : nat) :
  length im_k = length im_q →
  idx_shuffle ≡ₚ seq 0 (length im_k) →
  length (queue self) = K self →
  of_width dim (queue self) →
  embeds ModelBasev1 dim (encoder_q self) im_q →
  embeds_shuffled ModelBasev1 dim (encoder_k self) im_k idx_shuffle →
  ∃ (loss : F) (im_k_ : list image) (k : batch F),
    let q := MoCov1.encoder ModelBasev1 (encoder_q self) im_q in
    let k_ := MoCov1.encoder ModelBasev1 (encoder_k self) im_k_ in
    index_rows im_k idx_shuffle = Ok im_k_ ∧
    index_rows k_ (argsort idx_shuffle) = Ok k ∧
    (∀ j i, idx_shuffle !! j = Some i →
            im_k_ !! j = im_k !! i ∧ k !! i = k_ !! j) ∧
    MoCov1.contrastive_loss ModelBasev1 im_q im_k idx_shuffle self
      = (Ok (loss, q, k), self) ∧
    length q = length im_q ∧ length k = length im_q ∧
    of_width dim q ∧ of_width dim k ∧
    let logits := MoCov1.logits_of q k (queue self) (T self) in
    length logits = length im_q ∧
    (∀ i row, logits !! i = Some row → length row = (1 + K self)%nat) ∧
    (∀ i qi ki, q !! i = Some qi → k !! i = Some ki →
       logits !! i
         = Some (dot qi ki / T self :: ((λ c, dot qi c / T self) <$> queue self))) ∧
    CrossEntropyLoss logits (replicate (length im_q) 0) = Ok loss ∧
    loss = tensor_sum (positive_nll <$> logits) / s_of_nat (length im_q) ∧
    (∀ i qi, q !! i = Some qi → k !! i = Some qi → dot qi qi = s_one →
       logits !! i ≫= head = Some (s_one / T self)).
Proof.
  intros Hlen Hperm Hqueue _. by apply contrastive_loss_at.
Qed.
End ContrastiveLoss.

(** ** The training step *)

Section TrainingStep.
Context {F : Type} `{Scalar F} `{Elementary F} {image : Type}.
Variable ModelBasev1 : list (tensor F) → list image → batch F.
Hypothesis ModelBasev1_rows : ∀ ps x, length (ModelBasev1 ps x) = length x.
Local Open Scope scalar_scope.

(** The step up to the enqueue: the momentum update, then the two loss
    computations on the updated model. *)
Lemma forward_unfold (self : moco F) (im1 im2 : list image)
    (idx12 idx21 : list nat) (loss_12 loss_21 : F) (q1 k2 q2 k1 : batch F) :
  let self1 := (MoCov1._momentum_update_key_encoder self).2 in
  MoCov1.contrastive_loss ModelBasev1 im1 im2 idx12 self1
    = (Ok (loss_12, q1, k2), self1) →
  MoCov1.contrastive_loss ModelBasev1 im2 im1 idx21 self1
    = (Ok (loss_21, q2, k1), self1) →
  MoCov1.forward ModelBasev1 im1 im2 idx12 idx21 self
    = match MoCov1._dequeue_and_enqueue (k1 ++ k2) self1 with
      | (Ok _, self') => (Ok (loss_12 + loss_21), self')
      | (Raise e, self') => (Raise e, self')
      end.
Proof.
  intros self1 H12 H21. unfold MoCov1.forward, mbind, method_bind.
  cbn [MoCov1._momentum_update_key_encoder].
  change (set_encoder_k _ self) with self1.
  rewrite H12, H21.
  by destruct (MoCov1._dequeue_and_enqueue (k1 ++ k2) self1) as [[[]|e] self'].
Qed.

Lemma forward_losses (self : moco F) (im1 im2 : list image)
    (idx12 idx21 : list nat) :
  length im2 = length im1 →
  idx12 ≡ₚ seq 0 (length im2) →
  idx21 ≡ₚ seq 0 (length im1) →
  length (queue self) = K self →
  let self1 := (MoCov1._momentum_update_key_encoder self).2 in
  ∃ (loss_12 loss_21 : F) (q1 k2 q2 k1 : batch F),
    MoCov1.contrastive_loss ModelBasev1 im1 im2 idx12 self1
      = (Ok (loss_12, q1, k2), self1) ∧
    MoCov1.contrastive_loss ModelBasev1 im2 im1 idx21 self1
      = (Ok (loss_21, q2, k1), self1) ∧
    length (k1 ++ k2) = (2 * length im1)%nat.
Proof.
  intros Hlen H12 H21 Hq self1.
  destruct (contrastive_loss_run ModelBasev1 ModelBasev1_rows self1 im1 im2 idx12)
    as (loss_12 & q1 & k2 & Hrun12 & _ & _ & Hk2 & _); try done.
  destruct (contrastive_loss_run ModelBasev1 ModelBasev1_rows self1 im2 im1 idx21)
    as (loss_21 & q2 & k1 & Hrun21 & _ & _ & Hk1 & _); try done.
  exists loss_12, loss_21, q1, k2, q2, k1.
  split; [done|]. split; [done|]. rewrite length_app. lia.
Qed.

Lemma forward_losses_at (self : moco F) (im1 im2 : list image)
    (idx12 idx21 : list nat) (dim : nat) :
  length im2 = length im1 →
  idx12 ≡ₚ seq 0 (length im2) →
  idx21 ≡ₚ seq 0 (length im1) →
  length (queue self) = K self →
  step_embeds ModelBasev1 dim self im1 im2 idx12 idx21 →
  let self1 := (MoCov1._momentum_update_key_encoder self).2 in
  ∃ (loss_12 loss_21 : F) (q1 k2 q2 k1 : batch F),
    MoCov1.contrastive_loss ModelBasev1 im1 im2 idx12 self1
      = (Ok (loss_12, q1, k2), self1) ∧
    MoCov1.contrastive_loss ModelBasev1 im2 im1 idx21 self1
      = (Ok (loss_21, q2, k1), self1) ∧
    length (k1 ++ k2) = (2 * length im1)%nat ∧
    of_width dim (k1 ++ k2).
Proof.
  intros Hlen H12 H21 Hq (Hq1 & Hk2 & Hq2 & Hk1) self1.
  destruct (contrastive_loss_at ModelBasev1 self1 im1 im2 idx12 dim)
    as (loss_12 & im2_ & k2 & _ & _ & _ & Hrun12 & _ & Hlen2 & _ & Hw2 & _);
    try done.
  destruct (contrastive_loss_at ModelBasev1 self1 im2 im1 idx21 dim)
    as (loss_21 & im1_ & k1 & _ & _ & _ & Hrun21 & _ & Hlen1 & _ & Hw1 & _);
    try done.
  eexists loss_12, loss_21, _, k2, _, k1.
  split; [exact Hrun12|]. split; [exact Hrun21|]. split.
  - rewrite length_app. lia.
  - by apply Forall_app.
Qed.

(** C6 (amended). For a step on two views of [N > 0] images each, with
    [2N] dividing [K], the [2N] columns from the pointer on inside the
    buffer, queue columns of [dim] entries, and the four encoder calls
    of the step returning one embedding of [dim] entries per image: the
    step applies the momentum update, computes the contrastive loss of
    view 1 against the keys of view 2 and of view 2 against the keys of
    view 1 on the updated model, returns the sum of the two losses, and
    enqueues [k1 ++ k2] in one enqueue, after which the pointer is
    [(ptr + 2N) mod K]: with [K = 4096] and [N = 256] it has advanced by
    512 modulo 4096. *)
Theorem forward_symmetric_step (self : moco F) (im1 im2 : list image)
    (idx12 idx21 : list nat) (dim : nat) :
  length im2 = length im1 →
  idx12 ≡ₚ seq 0 (length im2) →
  idx21 ≡ₚ seq 0 (length im1) →
  length (queue self) = K self →
  of_width dim (queue self) →
  step_embeds ModelBasev1 dim self im1 im2 idx12 idx21 →
  (0 < length im1)%nat →
  (K self mod (2 * length im1) = 0)%nat →
  (queue_ptr self + 2 * length im1 ≤ K self)%nat →
  let self1 := (MoCov1._momentum_update_key_encoder self).2 in
  ∃ (loss_12 loss_21 : F) (q1 k2 q2 k1 : batch F) (self' : moco F),
    MoCov1.contrastive_loss ModelBasev1 im1 im2 idx12 self1
      = (Ok (loss_12, q1, k2), self1) ∧
    MoCov1.contrastive_loss ModelBasev1 im2 im1 idx21 self1
      = (Ok (loss_21, q2, k1), self1) ∧
    MoCov1._dequeue_and_enqueue (k1 ++ k2) self1 = (Ok (), self') ∧
    MoCov1.forward ModelBasev1 im1 im2 idx12 idx21 self
      = (Ok (loss_12 + loss_21), self') ∧
    queue self' = take (queue_ptr self) (queue self) ++ (k1 ++ k2)
                    ++ drop (queue_ptr self + 2 * length im1)%nat (queue self) ∧
    queue_ptr self' = ((queue_ptr self + 2 * length im1) mod K self)%nat ∧
    (K self = 4096%nat → length im1 = 256%nat →
     queue_ptr self' = ((queue_ptr self + 512) mod 4096)%nat).
Proof.
  intros Hlen H12 H21 Hq Hwq Hemb HN Hdiv Hfit self1.
  destruct (forward_losses_at self im1 im2 idx12 idx21 dim)
    as (loss_12 & loss_21 & q1 & k2 & q2 & k1 & Hrun12 & Hrun21 & Hk & Hwk);
    try done.
  pose proof (forward_unfold self im1 im2 idx12 idx21 _ _ _ _ _ _ Hrun12 Hrun21)
    as Hfwd.
  fold self1 in Hfwd.
  assert (MoCov1._dequeue_and_enqueue (k1 ++ k2) self1
          = (Ok (),
             set_queue_ptr ((queue_ptr self1 + length (k1 ++ k2)) mod K self1)
               (set_queue (take (queue_ptr self1) (queue self1) ++ (k1 ++ k2)
                             ++ drop (queue_ptr self1 + length (k1 ++ k2))
                                  (queue self1)) self1))) as Henq.
  { apply (dequeue_and_enqueue_ok dim); rewrite ?Hk; try done. lia. }
  rewrite Henq in Hfwd.
  eexists loss_12, loss_21, q1, k2, q2, k1, _.
  split; [exact Hrun12|]. split; [exact Hrun21|]. split; [exact Henq|].
  split; [exact Hfwd|]. rewrite Hk. split; [done|]. split; [done|].
  intros HK H256. cbn [queue_ptr set_queue_ptr].
  change (K self1) with (K self). change (queue_ptr self1) with (queue_ptr self).
  rewrite HK, H256. done.
Qed.

(** What a step does to the parameters, whether or not it raises. *)
Lemma dequeue_and_enqueue_encoders (keys : batch F) (self : moco F) :
  let self' := (MoCov1._dequeue_and_enqueue keys self).2 in
  encoder_q self' = encoder_q self ∧ encoder_k self' = encoder_k self ∧
  m self' = m self.
Proof.
  unfold MoCov1._dequeue_and_enqueue. repeat case_bool_decide; simpl; try done.
  destruct (MoCov1.assign_columns _ _ _); simpl; [|done].
  by case_bool_decide.
Qed.

Lemma contrastive_loss_state (self : moco F) (im_q im_k : list image)
    (idx_shuffle : list nat) :
  (MoCov1.contrastive_loss ModelBasev1 im_q im_k idx_shuffle self).2 = self.
Proof. reflexivity. Qed.

Lemma forward_state (self : moco F) (im1 im2 : list image)
    (idx12 idx21 : list nat) :
  let self1 := (MoCov1._momentum_update_key_encoder self).2 in
  let self' := (MoCov1.forward ModelBasev1 im1 im2 idx12 idx21 self).2 in
  self' = self1 ∨ ∃ keys, self' = (MoCov1._dequeue_and_enqueue keys self1).2.
Proof.
  intros self1. unfold MoCov1.forward, mbind, method_bind.
  cbn [MoCov1._momentum_update_key_encoder].
  change (set_encoder_k _ self) with self1.
  pose proof (contrastive_loss_state self1 im1 im2 idx12) as H12.
  destruct (MoCov1.contrastive_loss ModelBasev1 im1 im2 idx12 self1)
    as [[[[loss_12 q1] k2]|e] s12]; simpl in H12; subst s12; [|by left].
  pose proof (contrastive_loss_state self1 im2 im1 idx21) as H21.
  destruct (MoCov1.contrastive_loss ModelBasev1 im2 im1 idx21 self1)
    as [[[[loss_21 q2] k1]|e] s21]; simpl in H21; subst s21; [|by left].
  right. exists (k1 ++ k2).
  by destruct (MoCov1._dequeue_and_enqueue (k1 ++ k2) self1) as [[[]|e] self'].
Qed.

Lemma forward_encoders (self : moco F) (im1 im2 : list image)
    (idx12 idx21 : list nat) :
  let self' := (MoCov1.forward ModelBasev1 im1 im2 idx12 idx21 self).2 in
  encoder_q self' = encoder_q self ∧
  encoder_k self'
    = MoCov1.momentum_loop (m self) (encoder_q self) (encoder_k self) ∧
  m self' = m self.
Proof.
  intros self'.
  destruct (forward_state self im1 im2 idx12 idx21) as [Heq|[keys Heq]];
    unfold self'; rewrite Heq.
  - done.
  - destruct (dequeue_and_enqueue_encoders keys
                (MoCov1._momentum_update_key_encoder self).2) as (Hq & Hk & Hm).
    cbv zeta in Hq, Hk, Hm. rewrite Hq, Hk, Hm. done.
Qed.

(** A step whose [2N] keys do not divide the capacity stops at the
    assertion of the enqueue: the momentum update has been applied, the
    queue and the pointer are untouched. *)
Lemma forward_assertion (self : moco F) (im1 im2 : list image)
    (idx12 idx21 : list nat) :
  length im2 = length im1 →
  idx12 ≡ₚ seq 0 (length im2) →
  idx21 ≡ₚ seq 0 (length im1) →
  length (queue self) = K self →
  (0 < length im1)%nat →
  (K self mod (2 * length im1) ≠ 0)%nat →
  MoCov1.forward ModelBasev1 im1 im2 idx12 idx21 self
    = (Raise AssertionError, (MoCov1._momentum_update_key_encoder self).2).
Proof.
  intros Hlen H12 H21 Hq HN Hdiv.
  destruct (forward_losses self im1 im2 idx12 idx21)
    as (loss_12 & loss_21 & q1 & k2 & q2 & k1 & Hrun12 & Hrun21 & Hk); try done.
  rewrite (forward_unfold self im1 im2 idx12 idx21 _ _ _ _ _ _ Hrun12 Hrun21).
  rewrite dequeue_and_enqueue_assertion; [done| |]; rewrite Hk; [lia|done].
Qed.

(** C7 (amended). Construction takes no batch size and completes for
    every capacity [K0]: it returns a model with [K0] queue columns and
    the pointer at 0. The divisibility of the capacity by the batch size
    is checked by the assertion inside each enqueue: an enqueue of
    [b > 0] keys with [K mod b <> 0] raises [AssertionError] and leaves
    the model as it was; a training step with [K mod 2N <> 0] raises
    [AssertionError] at its enqueue, with the queue and the pointer
    untouched. *)
Theorem divisibility_checked_at_enqueue (K0 : nat) (m0 T0 : F)
    (wq wk : list (tensor F)) (noise : nat → embedding F) :
  let self0 := MoCov1.__init__ K0 m0 T0 wq wk noise in
  (K self0 = K0 ∧ length (queue self0) = K0 ∧ queue_ptr self0 = 0%nat) ∧
  (∀ (self : moco F) (keys : batch F),
     (0 < length keys)%nat → (K self mod length keys ≠ 0)%nat →
     MoCov1._dequeue_and_enqueue keys self = (Raise AssertionError, self)) ∧
  (∀ (self : moco F) (im1 im2 : list image) (idx12 idx21 : list nat),
     length im2 = length im1 →
     idx12 ≡ₚ seq 0 (length im2) →
     idx21 ≡ₚ seq 0 (length im1) →
     length (queue self) = K self →
     (0 < length im1)%nat →
     (K self mod (2 * length im1) ≠ 0)%nat →
     let out := MoCov1.forward ModelBasev1 im1 im2 idx12 idx21 self in
     out.1 = Raise AssertionError ∧
     queue out.2 = queue self ∧ queue_ptr out.2 = queue_ptr self).
Proof.
  split; [|split].
  - simpl. by rewrite length_fmap, length_seq.
  - intros self keys. apply dequeue_and_enqueue_assertion.
  - intros self im1 im2 idx12 idx21 Hlen H12 H21 Hq HN Hdiv.
    by rewrite forward_assertion.
Qed.
End TrainingStep.

(** ** The key encoder under training *)

Section KeyEncoder.
Context {F : Type} `{Scalar F} `{Elementary F} {image : Type}.
Variable ModelBasev1 : list (tensor F) → list image → batch F.

Lemma init_key_params_data (qs ks : list (param F)) :
  length qs = length ks →
  data <$> MoCov1.init_key_params qs ks = data <$> qs.
Proof.
  revert ks. induction qs as [|pq qs IH]; intros [|pk ks] Hlen;
    simplify_eq/=; [done|]. f_equal. by apply IH.
Qed.

Lemma init_key_params_frozen (qs ks : list (param F)) :
  length qs = length ks →
  Forall (λ p, grad p = None) ks →
  Forall frozen (MoCov1.init_key_params qs ks).
Proof.
  intros Hlen Hks. revert qs Hlen.
  induction Hks as [|pk ks Hpk Hks IH]; intros [|pq qs] Hlen;
    simplify_eq/=; constructor; [done|]. by apply IH.
Qed.

Lemma fresh_params_no_grad (ws : list (tensor F)) :
  Forall (λ p, grad p = None) (fresh_params ws).
Proof. unfold fresh_params. apply Forall_fmap, Forall_true. done. Qed.

Lemma momentum_loop_frozen (m0 : F) (qs ks : list (param F)) :
  Forall frozen ks → Forall frozen (MoCov1.momentum_loop m0 qs ks).
Proof.
  intros Hks. revert qs.
  induction Hks as [|pk ks Hpk Hks IH]; intros [|pq qs]; simpl;
    try by constructor.
Qed.

Lemma accumulate_grad_frozen (g : nat → tensor F) (ks : list (param F)) :
  Forall frozen ks → imap (λ i, accumulate_grad (g i)) ks = ks.
Proof.
  intros Hks. revert g.
  induction Hks as [|pk ks [Hrg _] Hks IH]; intros g; simpl; [done|].
  unfold accumulate_grad at 1. rewrite Hrg. f_equal. apply IH.
Qed.

Lemma optimizer_update_frozen (upd : tensor F → tensor F → tensor F)
    (ks : list (param F)) :
  Forall frozen ks → optimizer_update upd <$> ks = ks.
Proof.
  induction 1 as [|pk ks [_ Hg] Hks IH]; simpl; [done|].
  unfold optimizer_update at 1. rewrite Hg. by f_equal.
Qed.

Lemma clear_grad_frozen (ks : list (param F)) :
  Forall frozen ks → clear_grad <$> ks = ks.
Proof.
  induction 1 as [|pk ks [_ Hg] Hks IH]; simpl; [done|].
  f_equal; [|done]. destruct pk; simpl in *; by subst.
Qed.

(** What each event does to the key parameters of a model whose key
    parameters are frozen. *)
Lemma run_event_key (self : moco F) (e : event) :
  Forall frozen (encoder_k self) →
  encoder_k (run_event ModelBasev1 self e)
    = match e with
      | Step _ _ _ _ =>
          MoCov1.momentum_loop (m self) (encoder_q self) (encoder_k self)
      | _ => encoder_k self
      end.
Proof.
  intros Hks. destruct e as [im1 im2 idx12 idx21|gq gk|upd|]; simpl.
  - by destruct (forward_encoders ModelBasev1 self im1 im2 idx12 idx21)
      as (_ & -> & _).
  - by apply accumulate_grad_frozen.
  - by apply optimizer_update_frozen.
  - by apply clear_grad_frozen.
Qed.

Lemma run_event_frozen (self : moco F) (e : event) :
  Forall frozen (encoder_k self) →
  Forall frozen (encoder_k (run_event ModelBasev1 self e)).
Proof.
  intros Hks. rewrite run_event_key by done.
  destruct e; try done. by apply momentum_loop_frozen.
Qed.

Lemma run_events_frozen (es : list event) (self : moco F) :
  Forall frozen (encoder_k self) →
  Forall frozen (encoder_k (run_events ModelBasev1 self es)).
Proof.
  revert self. induction es as [|e es IH]; intros self Hks; [done|].
  simpl. by apply IH, run_event_frozen.
Qed.

(** C2. A model constructed from two parameter sets of one shape schema
    has every key parameter equal to its query parameter and frozen (not
    requiring grad, no gradient). After any sequence of training steps,
    backward passes, optimizer steps and gradient resets, every key
    parameter is still frozen, and one further event changes the key
    parameters only if it is a training step, which replaces them by
    their momentum update; a backward pass leaves them, gradients
    included, as they are. *)
Theorem key_encoder_frozen (K0 : nat) (m0 T0 : F) (wq wk : list (tensor F))
    (noise : nat → embedding F) (es : list event) (e : event) :
  Forall2 (λ a b : tensor F, length a = length b) wq wk →
  let self0 := MoCov1.__init__ K0 m0 T0 wq wk noise in
  let self := run_events ModelBasev1 self0 es in
  data <$> encoder_k self0 = data <$> encoder_q self0 ∧
  data <$> encoder_q self0 = wq ∧
  Forall frozen (encoder_k self0) ∧
  Forall frozen (encoder_k self) ∧
  encoder_k (run_event ModelBasev1 self e)
    = match e with
      | Step _ _ _ _ =>
          MoCov1.momentum_loop (m self) (encoder_q self) (encoder_k self)
      | _ => encoder_k self
      end.
Proof.
  intros Hshape self0 self.
  assert (length (fresh_params wq) = length (fresh_params wk)) as Hlen.
  { unfold fresh_params. rewrite !length_fmap. by eapply Forall2_length. }
  assert (Forall frozen (encoder_k self0)) as Hinit.
  { apply init_key_params_frozen; [done|]. apply fresh_params_no_grad. }
  assert (Forall frozen (encoder_k self)) as Hself
    by (by apply run_events_frozen).
  split; [by apply init_key_params_data|].
  split.
  { simpl. unfold fresh_params. rewrite <- list_fmap_compose.
    by rewrite list_fmap_id. }
  split; [done|]. split; [done|]. by apply run_event_key.
Qed.
End KeyEncoder.

(** ** MoCov2 against MoCov1 *)

Section Variants.
Context {F : Type} `{Scalar F} `{Elementary F} {image dropout : Type}.
Variable ModelBasev1 : list (tensor F) → list image → batch F.
Variable ModelBasev2 : dropout → list (tensor F) → list image → batch F.
Hypothesis same_outputs : ∀ mask ps x, ModelBasev2 mask ps x = ModelBasev1 ps x.

Lemma contrastive_loss_same (self : moco F) (im_q im_k : list image)
    (idx_shuffle : list nat) (mask_q mask_k : dropout) :
  MoCov2.contrastive_loss ModelBasev2 im_q im_k idx_shuffle mask_q mask_k self
    = MoCov1.contrastive_loss ModelBasev1 im_q im_k idx_shuffle self.
Proof.
  unfold MoCov2.contrastive_loss, MoCov1.contrastive_loss, reading.
  unfold MoCov2.encoder, MoCov1.encoder. f_equal.
  rewrite same_outputs.
  change (@MoCov2._batch_shuffle_single_gpu) with (@MoCov1._batch_shuffle_single_gpu).
  destruct (MoCov1._batch_shuffle_single_gpu im_k idx_shuffle)
    as [[im_k_ idx_unshuffle]|e]; [|done].
  cbn [mbind result_bind]. by rewrite same_outputs.
Qed.

Lemma forward_same (self : moco F) (im1 im2 : list image) (idx12 idx21 : list nat)
    (mask_q1 mask_k2 mask_q2 mask_k1 : dropout) :
  MoCov2.forward ModelBasev2 im1 im2 idx12 idx21 mask_q1 mask_k2 mask_q2 mask_k1 self
    = MoCov1.forward ModelBasev1 im1 im2 idx12 idx21 self.
Proof.
  unfold MoCov2.forward, MoCov1.forward, mbind, method_bind.
  change (MoCov2._momentum_update_key_encoder self)
    with (MoCov1._momentum_update_key_encoder self).
  destruct (MoCov1._momentum_update_key_encoder self) as [[[]|e] self1]; [|done].
  rewrite contrastive_loss_same.
  destruct (MoCov1.contrastive_loss ModelBasev1 im1 im2 idx12 self1)
    as [[[[loss_12 q1] k2]|e] s12]; [|done].
  rewrite contrastive_loss_same.
  destruct (MoCov1.contrastive_loss ModelBasev1 im2 im1 idx21 s12)
    as [[[[loss_21 q2] k1]|e] s21]; [|done].
  reflexivity.
Qed.

(** C10. When the encoder of [MoCov2] computes, for every dropout mask,
    what the encoder of [MoCov1] computes, every method of [MoCov2] is
    extensionally the method of [MoCov1]: construction, momentum update,
    enqueue, shuffle and unshuffle, logits, contrastive loss and the
    training step give the same result and leave the same model, for
    the same hyperparameters, inputs and random draws. *)
Theorem MoCov2_same_mechanics (self : moco F) (K0 : nat) (m0 T0 : F)
    (wq wk : list (tensor F)) (noise : nat → embedding F)
    (keys q k : batch F) (im1 im2 : list image) (idx12 idx21 : list nat)
    (mask_q1 mask_k2 mask_q2 mask_k1 : dropout) :
  MoCov2.__init__ K0 m0 T0 wq wk noise = MoCov1.__init__ K0 m0 T0 wq wk noise ∧
  MoCov2._momentum_update_key_encoder self
    = MoCov1._momentum_update_key_encoder self ∧
  MoCov2._dequeue_and_enqueue keys self = MoCov1._dequeue_and_enqueue keys self ∧
  MoCov2._batch_shuffle_single_gpu im1 idx12
    = MoCov1._batch_shuffle_single_gpu im1 idx12 ∧
  MoCov2._batch_unshuffle_single_gpu k idx12
    = MoCov1._batch_unshuffle_single_gpu k idx12 ∧
  MoCov2.logits_of q k (queue self) (T self)
    = MoCov1.logits_of q k (queue self) (T self) ∧
  MoCov2.contrastive_loss ModelBasev2 im1 im2 idx12 mask_q1 mask_k2 self
    = MoCov1.contrastive_loss ModelBasev1 im1 im2 idx12 self ∧
  MoCov2.forward ModelBasev2 im1 im2 idx12 idx21 mask_q1 mask_k2 mask_q2 mask_k1 self
    = MoCov1.forward ModelBasev1 im1 im2 idx12 idx21 self.
Proof.
  repeat split; try reflexivity.
  - apply contrastive_loss_same.
  - apply forward_same.
Qed.
End Variants.

(** ** linear.py *)

Section LinearEvaluation.
Import Linear.

(** C8. [Net] built with the tag mocov1, mocov2, simclrv1 or simclrv2
    gets, before the checkpoint is loaded into it, a linear head
    [fc] with 512, 512, 2048 or 1024 input features, [num_class] output
    features and a bias, and the construction returns that module if
    the load succeeds; with any other tag the construction stops with
    [AssertionError], whatever the checkpoint. *)
Theorem Net_head_width (model_name : string) (num_class : nat)
    (load_state_dict : Net → result ()) :
  (∀ width : nat,
     (model_name, width)
       ∈ [("mocov1", 512); ("mocov2", 512); ("simclrv1", 2048); ("simclrv2", 1024)] →
     ∃ self : Net,
       fc self = {| in_features := width; out_features := num_class; bias := true |} ∧
       Net__init__ model_name num_class load_state_dict
         = (load_state_dict self ≫= λ _, Ok self) ∧
       Net__init__ model_name num_class (λ _, Ok ()) = Ok self) ∧
  (model_name ∉ ["mocov1"; "mocov2"; "simclrv1"; "simclrv2"] →
   Net__init__ model_name num_class load_state_dict = Raise AssertionError).
Proof.
  split.
  - intros width Hin. unfold Net__init__.
    repeat (apply elem_of_cons in Hin as [[= -> ->]|Hin];
            [eexists; split; [|split]; [|simpl; reflexivity|]; reflexivity|]).
    by apply elem_of_nil in Hin.
  - intros Hout. unfold Net__init__.
    assert (∀ tag, tag ∈ ["mocov1"; "mocov2"; "simclrv1"; "simclrv2"] →
                   String.eqb model_name tag = false) as Hne.
    { intros tag Htag. apply String.eqb_neq. by intros ->. }
    rewrite !Hne by (rewrite !elem_of_cons; auto 10).
    reflexivity.
Qed.

Lemma Net_head_width_witness :
  (∃ self : Net,
     fc self = {| in_features := 1024; out_features := 10; bias := true |} ∧
     Net__init__ "simclrv2" 10 (λ _, Raise RuntimeError)
       = (@Raise () RuntimeError ≫= λ _, Ok self) ∧
     Net__init__ "simclrv2" 10 (λ _, Ok ()) = Ok self) ∧
  Net__init__ "resnet18" 10 (λ _, Ok ()) = Raise AssertionError.
Proof.
  split.
  - apply (proj1 (Net_head_width "simclrv2" 10 (λ _, Raise RuntimeError)) 1024).
    rewrite !elem_of_cons. auto 10.
  - apply (proj2 (Net_head_width "resnet18" 10 (λ _, Ok ()))).
    rewrite !elem_of_cons, elem_of_nil. intros [?|[?|[?|[?|[]]]]]; discriminate.
Defined.

Context {F : Type} `{Scalar F} {net data optimizer object : Type}.
Variable set_training : bool → net → net.
Variable evaluate : net → data → result (F * F * F * nat) * net.
Variable optimize : optimizer → net → data → result () * (optimizer * net).

(** C9. [train_val] declares the three parameters [net], [data_loader]
    and [train_optimizer]; the call of the training loop passes the
    scheduler as a fourth positional argument and raises [TypeError]
    before the body runs, so the first pass of the loop raises, for
    every model, data, optimizer and scheduler, and leaves the model and
    the optimizer as they were. The same call without the scheduler runs
    the body. *)
Theorem train_val_scheduler_call (model : net) (train_loader test_loader : list data)
    (optimizer0 : optimizer) (scheduler : object) :
  call_train_val set_training evaluate optimize model train_loader
      (Some optimizer0) [scheduler]
    = (Raise TypeError, (model, Some optimizer0)) ∧
  main_epoch set_training evaluate optimize model train_loader test_loader
      optimizer0 scheduler
    = (Raise TypeError, (model, optimizer0)) ∧
  call_train_val (object := object) set_training evaluate optimize model
      train_loader (Some optimizer0) []
    = train_val set_training evaluate optimize model train_loader
        (Some optimizer0).
Proof. repeat split. Qed.
End LinearEvaluation.

(** ** Worked instances *)

Section Instances.
Import Examples.

Lemma scale_net_rows (ps : list (tensor R)) (x : list (list R)) :
  length (scale_net ps x) = length x.
Proof. apply length_fmap. Defined.

(** Momentum update of a model whose key parameters differ from its
    query parameters: element 1 of parameter 0. *)
Lemma momentum_update_key_encoder_blend_witness :
  let self := set_encoder_k (fresh_params [[5%Q; 6%Q]; [7%Q]]) queue4 in
  let out := MoCov1._momentum_update_key_encoder self in
  out.1 = Ok () ∧
  (∃ pk', encoder_k out.2 !! 0 = Some pk' ∧
          data pk' !! 1 = Some (6 * (99 # 100) + 2 * (1 - (99 # 100)))%Q ∧
          (length [1%Q; 2%Q] = length [5%Q; 6%Q] →
           length (data pk') = length [5%Q; 6%Q]) ∧
          requires_grad pk' = true ∧ grad pk' = None) ∧
  length (encoder_k out.2) = 2 ∧
  encoder_q out.2 = encoder_q self ∧
  (K out.2, m out.2, T out.2, queue out.2, queue_ptr out.2)
    = (K self, m self, T self, queue self, queue_ptr self).
Proof.
  exact (momentum_update_key_encoder_blend
           (set_encoder_k (fresh_params [[5%Q; 6%Q]; [7%Q]]) queue4) 0 1
           (Param [1%Q; 2%Q] true None) (Param [5%Q; 6%Q] true None) 2%Q 6%Q
           eq_refl eq_refl eq_refl eq_refl).
Defined.

(** A fresh model, trained for a step, a backward pass, an optimizer
    step and a gradient reset; then one more backward pass. *)
Lemma key_encoder_frozen_witness :
  let es := [Step view_a view_b [0] [0];
             Backward (λ _, [1%R; 1%R]) (λ _, [1%R; 1%R]);
             OptimizerStep (zip_with Rminus);
             ZeroGrad] in
  let self := run_events scale_net real4 es in
  data <$> encoder_k real4 = data <$> encoder_q real4 ∧
  data <$> encoder_q real4 = [[1%R; 1%R]; [0%R]] ∧
  Forall frozen (encoder_k real4) ∧
  Forall frozen (encoder_k self) ∧
  encoder_k (run_event scale_net self (Backward (λ _, [1%R; 1%R]) (λ _, [1%R; 1%R])))
    = encoder_k self.
Proof.
  apply (key_encoder_frozen scale_net 4 (99 / 100)%R (1 / 10)%R
           [[1%R; 1%R]; [0%R]] [[2%R; 2%R]; [5%R]] (λ _, [1%R; 0%R])
           [Step view_a view_b [0] [0];
            Backward (λ _, [1%R; 1%R]) (λ _, [1%R; 1%R]);
            OptimizerStep (zip_with Rminus);
            ZeroGrad]
           (Backward (λ _, [1%R; 1%R]) (λ _, [1%R; 1%R]))).
  repeat constructor.
Defined.

(** Three enqueues of two keys of width two into four columns of width
    two. *)
Lemma dequeue_and_enqueue_fifo_witness :
  writes_block queue4 keys2 (MoCov1._dequeue_and_enqueue keys2 queue4) ∧
  let out := enqueue_all [keys2; keys2'; keys2''] queue4 in
  out.1 = Ok () ∧
  circular_view out.2
    = [[3%Q; 3%Q]; [4%Q; 4%Q]; [5%Q; 5%Q]; [6%Q; 6%Q]] ∧
  queue_ptr out.2 = 2 ∧
  queue out.2 = [[5%Q; 5%Q]; [6%Q; 6%Q]; [3%Q; 3%Q]; [4%Q; 4%Q]].
Proof.
  destruct (dequeue_and_enqueue_fifo queue4 2 2) as [Hstep Hrun];
    [reflexivity | repeat constructor | lia | reflexivity |].
  split.
  - apply Hstep; [reflexivity | repeat constructor | simpl; lia].
  - destruct (Hrun eq_refl ltac:(simpl; lia) [keys2] [keys2'; keys2''])
      as (Hok & Hview & Hptr & _); [repeat constructor | reflexivity |].
    split; [exact Hok|]. split; [exact Hview|]. split; [exact Hptr|].
    reflexivity.
Defined.

(** C3, as stated, fails: after an enqueue of two keys into a fresh
    queue of four columns, an enqueue of four keys (four divides four)
    raises at the slice assignment; nothing is written and the pointer
    stays. *)
Lemma dequeue_and_enqueue_unaligned :
  let self := (MoCov1._dequeue_and_enqueue keys2 queue4).2 in
  (MoCov1._dequeue_and_enqueue keys2 queue4).1 = Ok () ∧
  length (queue self) = K self ∧
  queue_ptr self = 2 ∧
  length keys4 = 4 ∧
  K self mod length keys4 = 0 ∧
  MoCov1._dequeue_and_enqueue keys4 self = (Raise RuntimeError, self) ∧
  ¬ writes_block self keys4 (MoCov1._dequeue_and_enqueue keys4 self).
Proof.
  repeat split. intros [Hok _]. discriminate Hok.
Qed.

(** Two images per view and the swap as the permutation. First a key
    view and key parameters that differ from the query's: the keys and
    the logits. Then a key view equal to the query view on a fresh
    model, whose embeddings have unit length. *)
Lemma contrastive_loss_logits_witness :
  (∃ (loss : R) (k : batch R),
     MoCov1.contrastive_loss scale_net views_a views_c [1; 0] real4'
       = (Ok (loss, MoCov1.encoder scale_net (encoder_q real4') views_a, k),
          real4') ∧
     k = [[2; 6]; [6; 12]]%R ∧
     MoCov1.logits_of (MoCov1.encoder scale_net (encoder_q real4') views_a) k
         (queue real4') (T real4')
       = [[20; 10; 10; 10; 10]; [120; 0; 0; 0; 0]]%R) ∧
  (∃ (loss : R) (q k : batch R),
     MoCov1.contrastive_loss scale_net views_a views_a [1; 0] real4
       = (Ok (loss, q, k), real4) ∧
     MoCov1.logits_of q k (queue real4) (T real4) !! 0 ≫= head
       = Some (1 / (1 / 10))%R).
Proof.
  split.
  - destruct (contrastive_loss_logits scale_net real4' views_a views_c [1; 0] 2)
      as (loss & im_k_ & k & Hgather & Hun & _ & Hrun & _);
      [reflexivity | apply Permutation_swap | reflexivity | repeat constructor
      | split; [reflexivity | repeat constructor] | |].
    { intros im_k_ [= <-]. split; [reflexivity | repeat constructor]. }
    injection Hgather as <-. injection Hun as <-.
    eexists loss, _. split; [exact Hrun|].
    split; cbv -[Rplus Rmult Rdiv Rminus Rinv IZR]; repeat f_equal; lra.
  - destruct (contrastive_loss_logits scale_net real4 views_a views_a [1; 0] 2)
      as (loss & im_k_ & k & Hgather & Hun & _ & Hrun & _ & _ & _ & _ & _ & _ & _
          & _ & _ & Hunit);
      [reflexivity | apply Permutation_swap | reflexivity | repeat constructor
      | split; [reflexivity | repeat constructor] | |].
    { intros im_k_ [= <-]. split; [reflexivity | repeat constructor]. }
    injection Hgather as <-. injection Hun as <-.
    eexists loss, _, _. split; [exact Hrun|].
    apply (Hunit 0 [1 * 1; 1 * 0]%R); [reflexivity | reflexivity |].
    cbv -[Rplus Rmult Rdiv Rminus Rinv IZR]. lra.
Defined.

(** The four encoder calls of a step of [scale_net] on views of images
    of width two. *)
Lemma scale_net_step_embeds (self : moco R) (im1 im2 : list (list R))
    (idx12 idx21 : list nat) :
  Forall (λ ps, length (default [] (head (data <$> ps))) = 2)
    [encoder_q self;
     MoCov1.momentum_loop (m self) (encoder_q self) (encoder_k self)] →
  of_width 2 im1 → of_width 2 im2 →
  step_embeds scale_net 2 self im1 im2 idx12 idx21.
Proof.
  intros Hps Him1 Him2.
  assert (∀ ps x, length (default [] (head (data <$> ps))) = 2 →
                  of_width 2 x → embeds scale_net 2 ps x) as Hemb.
  { intros ps x Hp Hx. split; [apply length_fmap|].
    unfold MoCov1.encoder, scale_net. apply Forall_fmap.
    eapply Forall_impl; [exact Hx|]. intros im Him. simpl.
    rewrite length_zip_with, Hp, Him. reflexivity. }
  assert (∀ (x x_ : list (list R)) idx,
            of_width 2 x → index_rows x idx = Ok x_ → of_width 2 x_) as Hidx.
  { intros x x_ idx Hx Hrows. apply index_rows_Ok in Hrows.
    apply Forall_forall. intros im Him.
    apply list_elem_of_lookup_1 in Him as [j Hj].
    destruct (Forall2_lookup_r _ _ _ _ _ Hrows Hj) as (i & _ & Hi).
    by eapply (Forall_lookup_1 _ _ _ _ Hx). }
  apply Forall_cons in Hps as [Hq Hps]. apply Forall_cons in Hps as [Hk _].
  split; [by apply Hemb|]. split; [|split; [by apply Hemb|]].
  - intros x_ Hx_. apply Hemb; [done|]. by apply (Hidx im2 x_ idx12).
  - intros x_ Hx_. apply Hemb; [done|]. by apply (Hidx im1 x_ idx21).
Defined.

(** The first step of a fresh model on one image per view. *)
Lemma forward_symmetric_step_witness :
  ∃ (loss_12 loss_21 : R) (self' : moco R),
    MoCov1.forward scale_net view_a view_b [0] [0] real4
      = (Ok (loss_12 + loss_21)%R, self') ∧
    queue_ptr self' = (0 + 2 * 1) mod 4.
Proof.
  destruct (forward_symmetric_step scale_net real4 view_a view_b [0] [0] 2)
    as (loss_12 & loss_21 & q1 & k2 & q2 & k1 & self' & _ & _ & _ & Hfwd & _ & Hptr & _);
    [reflexivity | reflexivity | reflexivity | reflexivity | repeat constructor
    | apply scale_net_step_embeds; repeat constructor
    | simpl; lia | reflexivity | simpl; lia |].
  exists loss_12, loss_21, self'. split; [exact Hfwd|exact Hptr].
Defined.

(** C6, as stated, fails: a fresh model of capacity four takes a step
    on one image per view (two keys, pointer at 2), then a step on two
    images per view: four keys divide the capacity, and the step raises
    at the slice assignment of its enqueue: no loss is returned. *)
Lemma forward_unaligned :
  let self := (MoCov1.forward scale_net view_a view_b [0] [0] real4).2 in
  is_ok (MoCov1.forward scale_net view_a view_b [0] [0] real4).1 = true ∧
  length (queue self) = K self ∧
  queue_ptr self = 2 ∧
  length views_a = 2 ∧ length views_b = 2 ∧
  K self mod (2 * length views_a) = 0 ∧
  (MoCov1.forward scale_net views_a views_b [1; 0] [0; 1] self).1
    = Raise RuntimeError ∧
  queue_ptr (MoCov1.forward scale_net views_a views_b [1; 0] [0; 1] self).2 = 2 ∧
  queue (MoCov1.forward scale_net views_a views_b [1; 0] [0; 1] self).2
    = queue self.
Proof. repeat split. Qed.

(** Capacity four, three keys, and a step on three images per view. *)
Lemma divisibility_checked_at_enqueue_witness :
  (K real4 = 4 ∧ length (queue real4) = 4 ∧ queue_ptr real4 = 0) ∧
  MoCov1._dequeue_and_enqueue views3_a real4 = (Raise AssertionError, real4) ∧
  let out := MoCov1.forward scale_net views3_a views3_b [2; 0; 1] [0; 1; 2] real4 in
  out.1 = Raise AssertionError ∧
  queue out.2 = queue real4 ∧ queue_ptr out.2 = queue_ptr real4.
Proof.
  destruct (divisibility_checked_at_enqueue scale_net scale_net_rows
              4 (99 / 100)%R (1 / 10)%R
              [[1%R; 1%R]; [0%R]] [[2%R; 2%R]; [5%R]] (λ _, [1%R; 0%R]))
    as (Hinit & Henq & Hstep).
  split; [exact Hinit|]. split.
  - apply Henq; [simpl; lia | discriminate].
  - apply Hstep; [reflexivity | | reflexivity | reflexivity | simpl; lia | discriminate].
    simpl. rewrite (Permutation_swap 0 2 [1]). apply perm_skip.
    apply Permutation_swap.
Defined.

(** C7, as stated, fails: construction with capacity four completes,
    and the capacity not being divisible by a batch of three is found
    only by the enqueue. *)
Lemma construction_accepts_any_capacity :
  K queue4 = 4 ∧ length (queue queue4) = 4 ∧ queue_ptr queue4 = 0 ∧
  length keys3 = 3 ∧ K queue4 mod length keys3 ≠ 0 ∧
  MoCov1._dequeue_and_enqueue keys3 queue4 = (Raise AssertionError, queue4).
Proof. repeat split. discriminate. Qed.

(** A second encoder that ignores its dropout mask. *)
Lemma MoCov2_same_mechanics_witness :
  MoCov2.forward (λ _ : bool, scale_net) view_a view_b [0] [0]
      true false false true real4
    = MoCov1.forward scale_net view_a view_b [0] [0] real4 ∧
  MoCov2.contrastive_loss (λ _ : bool, scale_net) view_a view_b [0] true false real4
    = MoCov1.contrastive_loss scale_net view_a view_b [0] real4.
Proof.
  destruct (MoCov2_same_mechanics scale_net (λ _ : bool, scale_net)
              (λ _ _ _, eq_refl) real4 4 (99 / 100)%R (1 / 10)%R [] [] (λ _, [])
              [] [] [] view_a view_b [0] [0] true false false true)
    as (_ & _ & _ & _ & _ & _ & Hloss & Hfwd).
  split; [exact Hfwd|exact Hloss].
Defined.
End Instances.

(** * Further properties *)

(** ** Outcomes of an enqueue and of a step *)

Section Outcomes.
Context {F : Type} `{Scalar F} `{Elementary F} {image : Type}.
Variable ModelBasev1 : list (tensor F) → list image → batch F.

Lemma set_queue_same (self : moco F) : set_queue (queue self) self = self.
Proof. by destruct self. Qed.

Lemma dequeue_and_enqueue_raise_unchanged (self : moco F) (keys : batch F) :
  length (queue self) = K self →
  is_ok (MoCov1._dequeue_and_enqueue keys self).1 = false →
  (MoCov1._dequeue_and_enqueue keys self).2 = self.
Proof.
  intros Hq. unfold MoCov1._dequeue_and_enqueue.
  case_bool_decide as Hb; [done|].
  case_bool_decide as Hdiv; [|done]. simpl.
  destruct (MoCov1.assign_columns (queue self) (queue_ptr self) keys)
    as [q'|e] eqn:Hassign; [|done].
  case_bool_decide as HK; [|done]. simpl in HK. intros _. simpl.
  apply assign_columns_length in Hassign.
  assert (queue self = []) as Hnil by (apply length_zero_iff_nil; lia).
  assert (q' = []) as ->.
  { apply length_zero_iff_nil. by rewrite Hassign, Hnil. }
  rewrite <- Hnil. apply set_queue_same.
Qed.

Lemma dequeue_and_enqueue_well_formed (self : moco F) (keys : batch F) :
  well_formed self →
  let self' := (MoCov1._dequeue_and_enqueue keys self).2 in
  well_formed self' ∧ K self' = K self ∧ m self' = m self ∧ T self' = T self.
Proof.
  intros [Hq Hptr].
  destruct (decide (is_ok (MoCov1._dequeue_and_enqueue keys self).1 = true))
    as [Hok|Hfail].
  - unfold MoCov1._dequeue_and_enqueue in *.
    case_bool_decide as Hb; [done|].
    case_bool_decide as Hdiv; [|done]. simpl in *.
    destruct (MoCov1.assign_columns (queue self) (queue_ptr self) keys)
      as [q'|e] eqn:Hassign; [|done].
    apply assign_columns_length in Hassign. simpl in *.
    rewrite bool_decide_eq_false_2 by lia. simpl.
    split; [|done]. split; simpl; [lia|].
    apply Nat.mod_upper_bound. lia.
  - apply not_true_is_false in Hfail.
    cbv zeta. rewrite dequeue_and_enqueue_raise_unchanged by done. done.
Qed.

(** X1. On a model whose queue has its [K] columns, of [dim] entries
    each, and whose pointer is below [K], an enqueue of [b] keys of
    [width] entries each ends in exactly one of these ways: [b = 0]
    raises [ZeroDivisionError]; [K mod b <> 0] raises [AssertionError];
    [b] divides [K] but the block passes the end of the buffer, or the
    keys are neither as wide as the queue nor of width one, raises
    [RuntimeError]; otherwise it returns, with the pointer advanced and
    the block at the pointer written with the keys, or, for keys of width
    one in a wider queue, with the single entry of each key repeated
    over its column. It returns exactly when [b > 0], [b] divides [K],
    [ptr + b <= K] and [width] is [dim] or one; whenever it raises, the
    model is left as it was. *)
Theorem dequeue_and_enqueue_outcome (self : moco F) (keys : batch F)
    (dim width : nat) :
  well_formed self →
  of_width dim (queue self) →
  of_width width keys →
  let b := length keys in
  let out := MoCov1._dequeue_and_enqueue keys self in
  let written (block : batch F) :=
    (Ok (),
     set_queue_ptr ((queue_ptr self + b) mod K self)
       (set_queue (take (queue_ptr self) (queue self) ++ block
                     ++ drop (queue_ptr self + b) (queue self)) self)) in
  (b = 0 → out = (Raise ZeroDivisionError, self)) ∧
  (0 < b → K self mod b ≠ 0 → out = (Raise AssertionError, self)) ∧
  (0 < b → K self mod b = 0 →
   K self < queue_ptr self + b ∨ (width ≠ dim ∧ width ≠ 1) →
   out = (Raise RuntimeError, self)) ∧
  (0 < b → K self mod b = 0 → queue_ptr self + b ≤ K self → width = dim →
   out = written keys) ∧
  (0 < b → K self mod b = 0 → queue_ptr self + b ≤ K self → width = 1 →
   out = written ((λ key, replicate dim (default s_zero (head key))) <$> keys)) ∧
  (is_ok out.1 = true ↔
   0 < b ∧ K self mod b = 0 ∧ queue_ptr self + b ≤ K self ∧
   (width = dim ∨ width = 1)) ∧
  (is_ok out.1 = false → out.2 = self).
Proof.
  intros [Hq Hptr] Hwq Hwk b out written.
  assert (b = 0 → out = (Raise ZeroDivisionError, self)) as Hzero.
  { intros Hb. unfold out, MoCov1._dequeue_and_enqueue.
    by rewrite bool_decide_eq_true_2. }
  assert (0 < b → K self mod b ≠ 0 → out = (Raise AssertionError, self)) as Hassert.
  { intros Hb Hdiv. by apply dequeue_and_enqueue_assertion. }
  assert (0 < b → K self mod b = 0 →
          K self < queue_ptr self + b ∨ (width ≠ dim ∧ width ≠ 1) →
          out = (Raise RuntimeError, self)) as Hraise.
  { intros Hb Hdiv Hcase.
    destruct (decide (queue_ptr self + b ≤ K self)) as [Hfit|Hover].
    - destruct Hcase as [Hover|[Hdim Hone]]; [lia|].
      by apply (dequeue_and_enqueue_mismatch dim width).
    - apply dequeue_and_enqueue_overflow; [|done|]; fold b; lia. }
  assert (0 < b → K self mod b = 0 → queue_ptr self + b ≤ K self →
          width = dim → out = written keys) as Hwrite.
  { intros Hb Hdiv Hfit ->. by apply (dequeue_and_enqueue_ok dim). }
  assert (0 < b → K self mod b = 0 → queue_ptr self + b ≤ K self →
          width = 1 →
          out = written ((λ key, replicate dim (default s_zero (head key)))
                           <$> keys)) as Hbroadcast.
  { intros Hb Hdiv Hfit ->. by apply (dequeue_and_enqueue_broadcast dim). }
  split; [done|]. split; [done|]. split; [done|]. split; [done|].
  split; [done|]. split.
  - split.
    + intros Hok.
      destruct (decide (b = 0)) as [Hb|Hb]; [by rewrite Hzero in Hok|].
      destruct (decide (K self mod b = 0)) as [Hdiv|Hdiv];
        [|by rewrite Hassert in Hok by lia].
      destruct (decide (queue_ptr self + b ≤ K self)) as [Hfit|Hfit];
        [|by rewrite Hraise in Hok by lia].
      destruct (decide (width = dim)) as [Hdim|Hdim]; [lia|].
      destruct (decide (width = 1)) as [Hone|Hone]; [lia|].
      rewrite Hraise in Hok by (lia || auto). done.
    + intros (Hb & Hdiv & Hfit & [Hdim|Hone]).
      * by rewrite Hwrite.
      * by rewrite Hbroadcast.
  - by apply dequeue_and_enqueue_raise_unchanged.
Qed.


Lemma forward_well_formed (self : moco F) (im1 im2 : list image)
    (idx12 idx21 : list nat) :
  well_formed self →
  let self' := (MoCov1.forward ModelBasev1 im1 im2 idx12 idx21 self).2 in
  well_formed self' ∧ K self' = K self ∧ m self' = m self ∧ T self' = T self.
Proof.
  intros Hwf self'.
  set (self1 := (MoCov1._momentum_update_key_encoder self).2).
  assert (well_formed self1) as Hwf1 by exact Hwf.
  destruct (forward_state ModelBasev1 self im1 im2 idx12 idx21) as [Heq|[keys Heq]];
    unfold self'; rewrite Heq; [done|].
  by destruct (dequeue_and_enqueue_well_formed self1 keys Hwf1) as (? & ? & ? & ?).
Qed.

(** X2. The queue is never resized: on a model whose queue has its [K]
    columns and whose pointer is below [K], every sequence of training
    steps (returning or raising, on any inputs), backward passes,
    optimizer steps and gradient resets leaves a queue of [K] columns, a
    pointer below [K] and the hyperparameters [K], [m] and [T] as they
    were. *)
Theorem queue_never_resized (self : moco F) (es : list event) :
  well_formed self →
  let self' := run_events ModelBasev1 self es in
  well_formed self' ∧
  length (queue self') = length (queue self) ∧
  K self' = K self ∧ m self' = m self ∧ T self' = T self.
Proof.
  revert self. induction es as [|e es IH]; intros self Hwf.
  - done.
  - assert (well_formed (run_event ModelBasev1 self e) ∧
            K (run_event ModelBasev1 self e) = K self ∧
            m (run_event ModelBasev1 self e) = m self ∧
            T (run_event ModelBasev1 self e) = T self) as (Hwf' & HK & Hm & HT).
    { destruct e as [im1 im2 idx12 idx21|gq gk|upd|]; [|done..].
      by apply forward_well_formed. }
    destruct (IH _ Hwf') as (Hwf'' & Hlen & HK' & Hm' & HT').
    cbv zeta.
    change (run_events ModelBasev1 self (e :: es))
      with (run_events ModelBasev1 (run_event ModelBasev1 self e) es).
    split; [done|].
    destruct Hwf as [Hq _], Hwf' as [Hq' _].
    rewrite Hlen, HK', Hm', HT', Hq', HK, Hq. done.
Qed.

End Outcomes.

(** ** Runs of training steps *)

Section StepRuns.
Context {F : Type} `{Scalar F} `{Elementary F} {image : Type}.
Variable ModelBasev1 : list (tensor F) → list image → batch F.
Variable dim : nat.
Hypothesis ModelBasev1_rows : ∀ ps x, length (ModelBasev1 ps x) = length x.
Hypothesis ModelBasev1_width : ∀ ps x, of_width dim (ModelBasev1 ps x).

Lemma step_embeds_always (self : moco F) (im1 im2 : list image)
    (idx12 idx21 : list nat) :
  step_embeds ModelBasev1 dim self im1 im2 idx12 idx21.
Proof.
  assert (∀ ps x, embeds ModelBasev1 dim ps x) as Hemb.
  { intros ps x. split; [apply ModelBasev1_rows|apply ModelBasev1_width]. }
  split; [done|]. split; [by intros ??|]. split; [done|]. by intros ??.
Qed.

Lemma forward_step_view (N : nat) (s : step_input) (self : moco F) :
  well_formed self →
  of_width dim (queue self) →
  0 < N →
  K self mod (2 * N) = 0 →
  queue_ptr self mod (2 * N) = 0 →
  step_fits N s →
  let '(im1, im2, idx12, idx21) := s in
  let out := MoCov1.forward ModelBasev1 im1 im2 idx12 idx21 self in
  (∃ loss, out.1 = Ok loss) ∧
  length (step_keys ModelBasev1 s self) = 2 * N ∧
  well_formed out.2 ∧
  of_width dim (queue out.2) ∧
  K out.2 = K self ∧
  queue_ptr out.2 mod (2 * N) = 0 ∧
  queue_ptr out.2 = (queue_ptr self + 2 * N) mod K self ∧
  circular_view out.2
    = drop (2 * N) (circular_view self) ++ step_keys ModelBasev1 s self.
Proof.
  intros [Hq Hptr] Hwq HN Hdiv Hal Hfits.
  destruct s as [[[im1 im2] idx12] idx21].
  destruct Hfits as (Hlen1 & Hlen2 & H12 & H21).
  set (self1 := (MoCov1._momentum_update_key_encoder self).2).
  destruct (forward_losses_at ModelBasev1 self im1 im2 idx12 idx21 dim)
    as (loss_12 & loss_21 & q1 & k2 & q2 & k1 & Hrun12 & Hrun21 & Hk & Hwk);
    [lia | by rewrite Hlen2 | by rewrite Hlen1 | done
    | apply step_embeds_always |].
  fold self1 in Hrun12, Hrun21. rewrite Hlen1 in Hk.
  assert (step_keys ModelBasev1 (im1, im2, idx12, idx21) self = k1 ++ k2) as Hkeys.
  { unfold step_keys. fold self1. by rewrite Hrun12, Hrun21. }
  assert (queue_ptr self + 2 * N ≤ K self) as Hfit.
  { apply aligned_block_fits; [lia|done..]. }
  assert (0 < 2 * N) as H2N by lia.
  pose proof (advance_aligned _ _ _ H2N Hdiv Hal Hfit) as [Hal' Hlt'].
  assert (length (queue self1) = K self1) as Hq1 by exact Hq.
  assert (of_width dim (queue self1)) as Hwq1 by exact Hwq.
  pose proof (dequeue_and_enqueue_ok dim self1 (k1 ++ k2) Hq1 Hwq1 Hwk) as Henq.
  rewrite Hk in Henq. specialize (Henq H2N Hdiv Hfit).
  pose proof (dequeue_and_enqueue_view dim self1 (k1 ++ k2) Hq1 Hwq1 Hwk) as Hview.
  rewrite Hk in Hview. specialize (Hview H2N Hdiv Hfit).
  rewrite Henq in Hview. cbn [snd] in Hview.
  rewrite (forward_unfold ModelBasev1 self im1 im2 idx12 idx21 _ _ _ _ _ _
             Hrun12 Hrun21).
  fold self1. rewrite Hkeys, Henq. cbn [fst snd].
  split; [eauto|]. split; [done|]. split.
  { split; simpl.
    - rewrite !length_app, length_take, length_drop.
      change (queue self1) with (queue self).
      change (queue_ptr self1) with (queue_ptr self).
      rewrite length_app in Hk. lia.
    - exact Hlt'. }
  split; [by apply of_width_block|].
  split; [done|]. split; [exact Hal'|]. split; [done|]. exact Hview.
Qed.

Lemma train_steps_cons (im1 im2 : list image) (idx12 idx21 : list nat)
    (steps : list step_input) (self : moco F) :
  train_steps ModelBasev1 ((im1, im2, idx12, idx21) :: steps) self
    = match MoCov1.forward ModelBasev1 im1 im2 idx12 idx21 self with
      | (Ok loss, self1) =>
          match train_steps ModelBasev1 steps self1 with
          | (Ok losses, self2) => (Ok (loss :: losses), self2)
          | (Raise e, self2) => (Raise e, self2)
          end
      | (Raise e, self1) => (Raise e, self1)
      end.
Proof. reflexivity. Qed.

Lemma train_steps_view (N : nat) (steps : list step_input) :
  0 < N →
  Forall (step_fits N) steps →
  ∀ self : moco F,
    well_formed self →
    of_width dim (queue self) →
    K self mod (2 * N) = 0 →
    queue_ptr self mod (2 * N) = 0 →
    let out := train_steps ModelBasev1 steps self in
    let keys := keys_of_steps ModelBasev1 steps self in
    (∃ losses, out.1 = Ok losses ∧ length losses = length steps) ∧
    Forall (λ ks, length ks = 2 * N) keys ∧
    well_formed out.2 ∧
    queue_ptr out.2 = (queue_ptr self + length steps * (2 * N)) mod K self ∧
    circular_view out.2
      = drop (length steps * (2 * N)) (circular_view self ++ concat keys).
Proof.
  intros HN. induction 1 as [|s steps Hs Hsteps IH];
    intros self Hwf Hwq Hdiv Hal.
  - simpl. split; [by exists []|]. split; [done|]. split; [done|].
    destruct Hwf as [_ Hptr].
    rewrite Nat.add_0_r, Nat.mod_small, app_nil_r, drop_0 by done. done.
  - pose proof (forward_step_view N s self Hwf Hwq HN Hdiv Hal Hs) as Hstep.
    destruct s as [[[im1 im2] idx12] idx21].
    destruct Hstep
      as ([loss Hloss] & Hk & Hwf' & Hwq' & HK' & Hal' & Hptr' & Hview').
    cbv zeta. rewrite train_steps_cons. cbn [keys_of_steps].
    destruct (MoCov1.forward ModelBasev1 im1 im2 idx12 idx21 self)
      as [r1 s1]. cbn [fst snd] in *. subst r1.
    destruct (IH s1 Hwf' Hwq')
      as ([losses [Hlosses Hlen]] & Hks & Hwf'' & Hptr'' & Hview'');
      [by rewrite HK' | done |].
    destruct (train_steps ModelBasev1 steps s1) as [r2 s2].
    cbn [fst snd] in *. subst r2. cbn [fst snd].
    split; [exists (loss :: losses); simpl; by rewrite Hlen|].
    split; [by constructor|]. split; [done|]. split.
    + rewrite Hptr'', Hptr', HK'.
      rewrite Nat.Div0.add_mod_idemp_l. f_equal. simpl. lia.
    + rewrite Hview'', Hview'. cbn [length concat].
      replace (S (length steps) * (2 * N))
        with (2 * N + length steps * (2 * N)) by lia.
      rewrite <- (drop_drop _ _ (2 * N)).
      rewrite <- app_assoc, (drop_app_le (circular_view self)); [done|].
      rewrite circular_view_length. destruct Hwf as [-> Hptr].
      assert (0 < 2 * N) as H2N by lia.
      pose proof (aligned_block_fits _ _ _ H2N Hdiv Hal Hptr). lia.
Qed.

(** X4. Let the encoder return, on every batch, one embedding of [dim]
    entries per image. From a model with a queue of [K] columns of
    [dim] entries and a pointer that is a multiple of [2N] below [K],
    with [2N] dividing [K], any number of successive steps on views of
    [N > 0] images all return; each enqueues [2N] keys; the pointer ends
    at [(ptr + n * 2N) mod K]; and the queue, read circularly from the
    pointer, is the old circular content followed by the key batches of
    the steps in their order, without its first [n * 2N] columns. Once
    [n * 2N >= K], the queue consists of keys of these steps only:
    nothing of the initial content is left. *)
Theorem train_steps_fifo (N : nat) (steps : list step_input) (self : moco F) :
  well_formed self →
  of_width dim (queue self) →
  0 < N →
  K self mod (2 * N) = 0 →
  queue_ptr self mod (2 * N) = 0 →
  Forall (step_fits N) steps →
  let out := train_steps ModelBasev1 steps self in
  let keys := keys_of_steps ModelBasev1 steps self in
  (∃ losses, out.1 = Ok losses ∧ length losses = length steps) ∧
  Forall (λ ks, length ks = 2 * N) keys ∧
  well_formed out.2 ∧
  queue_ptr out.2 = (queue_ptr self + length steps * (2 * N)) mod K self ∧
  circular_view out.2
    = drop (length steps * (2 * N)) (circular_view self ++ concat keys) ∧
  (K self ≤ length steps * (2 * N) →
   circular_view out.2
     = drop (length steps * (2 * N) - K self) (concat keys)).
Proof.
  intros Hwf Hwq HN Hdiv Hal Hsteps.
  destruct (train_steps_view N steps HN Hsteps self Hwf Hwq Hdiv Hal)
    as (Hloss & Hks & Hwf' & Hptr & Hview).
  cbv zeta. split; [done|]. split; [done|]. split; [done|]. split; [done|].
  split; [done|]. intros Hfull. rewrite Hview.
  rewrite drop_app_ge; rewrite circular_view_length; destruct Hwf as [-> _];
    done.
Qed.
End StepRuns.

(** ** The shuffle around the key encoder *)

Section ShuffleBounds.

Lemma index_rows_identity {A} (x : list A) :
  index_rows x (seq 0 (length x)) = Ok x.
Proof.
  apply index_rows_Ok, Forall2_same_length_lookup_2; [by rewrite length_seq|].
  intros i a b Ha Hb. apply lookup_seq in Ha as [-> _]. done.
Qed.

Lemma index_rows_out_of_range {A} (x : list A) (idx : list nat) :
  Exists (λ i, length x ≤ i) idx → index_rows x idx = Raise IndexError.
Proof.
  intros Hex. unfold index_rows.
  rewrite (mapM_None_2 (λ i, x !! i) idx); [done|].
  eapply Exists_impl; [exact Hex|]. intros i Hi. by apply lookup_ge_None_2.
Qed.

(** X5. Indexing a batch by an index list, as the shuffle and the
    unshuffle do: when every index is a position of the batch (repeated
    or missing positions allowed), the unshuffle returns as many rows as
    there are indices, row [j] being the row at position [idx[j]], and
    the shuffle returns these rows with the argsort of the index; when
    some index is past the end of the batch, the unshuffle raises
    [IndexError]. *)
Theorem batch_shuffle_index_bounds {A} (x : list A) (idx : list nat) :
  (Forall (λ i, i < length x) idx →
   ∃ rows : list A,
     MoCov1._batch_unshuffle_single_gpu x idx = Ok rows ∧
     MoCov1._batch_shuffle_single_gpu x idx = Ok (rows, argsort idx) ∧
     length rows = length idx ∧
     ∀ j i, idx !! j = Some i → rows !! j = x !! i) ∧
  (Exists (λ i, length x ≤ i) idx →
   MoCov1._batch_unshuffle_single_gpu x idx = Raise IndexError).
Proof.
  split.
  - intros Hall. destruct (index_rows_in_range x idx Hall) as [rows Hrows].
    exists rows. split; [exact Hrows|]. split.
    { unfold MoCov1._batch_shuffle_single_gpu. by rewrite Hrows. }
    split.
    + apply index_rows_Ok, Forall2_length in Hrows. done.
    + intros j i Hj. by eapply index_rows_lookup.
  - intros Hex. exact (index_rows_out_of_range x idx Hex).
Qed.

Lemma batch_shuffle_index_bounds_witness :
  (∃ rows : list nat,
     MoCov1._batch_unshuffle_single_gpu [10; 11; 12] [2; 2; 0; 1] = Ok rows ∧
     MoCov1._batch_shuffle_single_gpu [10; 11; 12] [2; 2; 0; 1]
       = Ok (rows, argsort [2; 2; 0; 1]) ∧
     length rows = 4 ∧
     ∀ j i, [2; 2; 0; 1] !! j = Some i → rows !! j = [10; 11; 12] !! i) ∧
  MoCov1._batch_unshuffle_single_gpu [10; 11; 12] [0; 3] = Raise IndexError.
Proof.
  split.
  - apply (proj1 (batch_shuffle_index_bounds [10; 11; 12] [2; 2; 0; 1])).
    repeat constructor.
  - apply (proj2 (batch_shuffle_index_bounds [10; 11; 12] [0; 3])).
    apply Exists_cons_tl, Exists_cons_hd. simpl. lia.
Defined.
End ShuffleBounds.

Section ShuffleTransparency.
Context {F : Type} `{Scalar F} `{Elementary F} {image : Type}.
Variable ModelBasev1 : list (tensor F) → list image → batch F.

(** The encoder computes the embedding of every image from that image
    alone: gathering rows of the input gathers the rows of the output. *)
Hypothesis ModelBasev1_rowwise :
  ∀ ps x idx rows,
    index_rows x idx = Ok rows →
    index_rows (ModelBasev1 ps x) idx = Ok (ModelBasev1 ps rows).

Lemma rowwise_rows (ps : list (tensor F)) (x : list image) :
  length (ModelBasev1 ps x) = length x.
Proof.
  pose proof (ModelBasev1_rowwise ps x _ _ (index_rows_identity x)) as Hrows.
  apply index_rows_Ok, Forall2_length in Hrows.
  by rewrite length_seq in Hrows.
Qed.

Lemma rowwise_keys (ps : list (param F)) (im_k : list image)
    (idx_shuffle : list nat) :
  idx_shuffle ≡ₚ seq 0 (length im_k) →
  ∃ im_k_ : list image,
    MoCov1._batch_shuffle_single_gpu im_k idx_shuffle
      = Ok (im_k_, argsort idx_shuffle) ∧
    MoCov1._batch_unshuffle_single_gpu (MoCov1.encoder ModelBasev1 ps im_k_)
      (argsort idx_shuffle) = Ok (MoCov1.encoder ModelBasev1 ps im_k).
Proof.
  intros Hperm.
  destruct (key_branch ModelBasev1 rowwise_rows ps im_k idx_shuffle Hperm)
    as (im_k_ & k & Hsh & _ & Hun & Hlen & Hrows).
  exists im_k_. split; [exact Hsh|]. rewrite Hun. f_equal.
  assert (index_rows im_k idx_shuffle = Ok im_k_) as Hgather.
  { unfold MoCov1._batch_shuffle_single_gpu in Hsh.
    destruct (index_rows im_k idx_shuffle); by simplify_eq/=. }
  apply (ModelBasev1_rowwise (data <$> ps)) in Hgather.
  apply list_eq. intros i.
  destruct (decide (i < length im_k)) as [Hi|Hi].
  - assert (i ∈ idx_shuffle) as Hin.
    { rewrite Hperm. apply elem_of_seq. lia. }
    apply list_elem_of_lookup_1 in Hin as [j Hj].
    rewrite (Hrows j i Hj). by eapply index_rows_lookup.
  - rewrite !lookup_ge_None_2; [done| |lia].
    unfold MoCov1.encoder. rewrite rowwise_rows. lia.
Qed.

Lemma contrastive_loss_rowwise (self : moco F) (im_q im_k : list image)
    (idx_shuffle : list nat) :
  idx_shuffle ≡ₚ seq 0 (length im_k) →
  let q := MoCov1.encoder ModelBasev1 (encoder_q self) im_q in
  let k := MoCov1.encoder ModelBasev1 (encoder_k self) im_k in
  let logits := MoCov1.logits_of q k (queue self) (T self) in
  MoCov1.contrastive_loss ModelBasev1 im_q im_k idx_shuffle self
    = (CrossEntropyLoss logits (replicate (length logits) 0)
         ≫= λ loss, Ok (loss, q, k), self).
Proof.
  intros Hperm.
  destruct (rowwise_keys (encoder_k self) im_k idx_shuffle Hperm)
    as (im_k_ & Hsh & Hun).
  unfold MoCov1.contrastive_loss, reading. rewrite Hsh. cbn [mbind result_bind].
  rewrite Hun. reflexivity.
Qed.

(** X6. For an encoder that computes each embedding from its own image
    alone, the shuffle around the key encoder is invisible: for every
    permutation drawn, [contrastive_loss] returns what it returns with
    the identity permutation, and its keys are the key encoder's output
    on the unshuffled images. *)
Theorem shuffle_invisible_for_rowwise_encoder (self : moco F)
    (im_q im_k : list image) (idx_shuffle : list nat) :
  length im_k = length im_q →
  idx_shuffle ≡ₚ seq 0 (length im_k) →
  MoCov1.contrastive_loss ModelBasev1 im_q im_k idx_shuffle self
    = MoCov1.contrastive_loss ModelBasev1 im_q im_k (seq 0 (length im_k)) self ∧
  ∃ loss : F,
    MoCov1.contrastive_loss ModelBasev1 im_q im_k idx_shuffle self
      = (Ok (loss,
             MoCov1.encoder ModelBasev1 (encoder_q self) im_q,
             MoCov1.encoder ModelBasev1 (encoder_k self) im_k), self).
Proof.
  intros Hlen Hperm. split.
  - rewrite !contrastive_loss_rowwise by done. reflexivity.
  - rewrite contrastive_loss_rowwise by done. cbv zeta.
    rewrite (CrossEntropyLoss_label0 _ (logits_of_nonempty _ _ _ _)).
    eexists. reflexivity.
Qed.
End ShuffleTransparency.

(** ** Shapes through the forward passes *)

Section ForwardShapes.
Import Shapes.

Lemma flatten_4d (N C H W : nat) : flatten [N; C; H; W] = Ok [N; C * H * W].
Proof. unfold flatten, numel. simpl. do 3 f_equal. lia. Qed.

Lemma Linear_forward_2d (in_features out_features n d : nat) :
  Linear_forward in_features out_features [n; d]
    = if bool_decide (d = in_features) then Ok [n; out_features]
      else Raise RuntimeError.
Proof. reflexivity. Qed.

(** X7. [ModelBasev1.forward] and [ModelBasev2.forward] accept exactly a
    trunk output with 512 features per sample: on a trunk output of shape
    [(N, C, H, W)] with [C * H * W <> 512] both raise [RuntimeError] at
    the first linear layer of the projector; with [C * H * W = 512] and a
    batch that is not empty [ModelBasev1] returns shape
    [(N, feature_dim)], and so does [ModelBasev2], except that in training
    mode a batch of one sample raises [ValueError] at its batch
    normalisation. *)
Theorem ModelBase_forward_needs_512 (feature_dim : nat) (training : bool)
    (N C H W : nat) :
  (C * H * W ≠ 512 →
   ModelBasev1_forward feature_dim [N; C; H; W] = Raise RuntimeError ∧
   ModelBasev2_forward feature_dim training [N; C; H; W] = Raise RuntimeError) ∧
  (0 < N → C * H * W = 512 →
   ModelBasev1_forward feature_dim [N; C; H; W] = Ok [N; feature_dim] ∧
   ModelBasev2_forward feature_dim training [N; C; H; W]
     = if training && bool_decide (N = 1) then Raise ValueError
       else Ok [N; feature_dim]).
Proof.
  unfold ModelBasev1_forward, ModelBasev2_forward. rewrite flatten_4d.
  cbn [mbind result_bind]. rewrite !Linear_forward_2d. split.
  - intros Hne. by rewrite bool_decide_eq_false_2.
  - intros _ Heq. rewrite bool_decide_eq_true_2 by done.
    cbn [mbind result_bind BatchNorm1d_forward]. split; [done|].
    destruct (training && bool_decide (N = 1)); [done|].
    rewrite bool_decide_eq_true_2 by done. reflexivity.
Qed.

Lemma ModelBase_forward_needs_512_witness :
  (ModelBasev1_forward 128 [256; 2048; 1; 1] = Raise RuntimeError ∧
   ModelBasev2_forward 128 true [256; 2048; 1; 1] = Raise RuntimeError) ∧
  (ModelBasev1_forward 128 [256; 512; 1; 1] = Ok [256; 128] ∧
   ModelBasev2_forward 128 true [256; 512; 1; 1]
     = if true && bool_decide (256 = 1) then Raise ValueError
       else Ok [256; 128]).
Proof.
  split.
  - apply (proj1 (ModelBase_forward_needs_512 128 true 256 2048 1 1)).
    discriminate.
  - apply (proj2 (ModelBase_forward_needs_512 128 true 256 512 1 1));
      [lia | reflexivity].
Defined.

(** X8. [SimCLRv1.forward] and [SimCLRv2.forward] accept exactly a trunk
    output with 2048 features per sample: with [C * H * W <> 2048] both
    raise [RuntimeError]; with [C * H * W = 2048] and a batch that is not
    empty both return the shapes [(N, 2048)] of the feature and
    [(N, feature_dim)] of the projection, except that in training mode a
    batch of one sample raises [ValueError]. *)
Theorem SimCLR_forward_needs_2048 (feature_dim : nat) (training : bool)
    (N C H W : nat) :
  (C * H * W ≠ 2048 →
   SimCLRv1_forward feature_dim training [N; C; H; W] = Raise RuntimeError ∧
   SimCLRv2_forward feature_dim training [N; C; H; W] = Raise RuntimeError) ∧
  (0 < N → C * H * W = 2048 →
   SimCLRv1_forward feature_dim training [N; C; H; W]
     = (if training && bool_decide (N = 1) then Raise ValueError
        else Ok ([N; 2048], [N; feature_dim])) ∧
   SimCLRv2_forward feature_dim training [N; C; H; W]
     = (if training && bool_decide (N = 1) then Raise ValueError
        else Ok ([N; 2048], [N; feature_dim]))).
Proof.
  unfold SimCLRv1_forward, SimCLRv2_forward, SimCLRv2_g1, SimCLRv2_g2.
  rewrite flatten_4d. cbn [mbind result_bind]. rewrite !Linear_forward_2d. split.
  - intros Hne. by rewrite bool_decide_eq_false_2.
  - intros _ Heq. rewrite bool_decide_eq_true_2 by done. rewrite Heq.
    cbn [mbind result_bind BatchNorm1d_forward].
    destruct (training && bool_decide (N = 1)) eqn:Hone; [done|].
    rewrite !bool_decide_eq_true_2 by done.
    cbn [mbind result_bind]. rewrite !Linear_forward_2d.
    rewrite !bool_decide_eq_true_2 by done.
    cbn [mbind result_bind BatchNorm1d_forward]. rewrite Hone.
    rewrite !bool_decide_eq_true_2 by done.
    cbn [mbind result_bind]. rewrite !Linear_forward_2d.
    rewrite !bool_decide_eq_true_2 by done. done.
Qed.

Lemma SimCLR_forward_needs_2048_witness :
  (SimCLRv1_forward 128 true [8; 512; 1; 1] = Raise RuntimeError ∧
   SimCLRv2_forward 128 true [8; 512; 1; 1] = Raise RuntimeError) ∧
  (SimCLRv1_forward 128 false [1; 2048; 1; 1]
     = (if false && bool_decide (1 = 1) then Raise ValueError
        else Ok ([1; 2048], [1; 128])) ∧
   SimCLRv2_forward 128 false [1; 2048; 1; 1]
     = (if false && bool_decide (1 = 1) then Raise ValueError
        else Ok ([1; 2048], [1; 128]))).
Proof.
  split.
  - apply (proj1 (SimCLR_forward_needs_2048 128 true 8 512 1 1)). discriminate.
  - apply (proj2 (SimCLR_forward_needs_2048 128 false 1 2048 1 1));
      [lia | reflexivity].
Defined.
End ForwardShapes.

Section EvaluationNetworkShapes.
Import Shapes.

(** X9. A [Net] built with the tag mocov1, mocov2 or simclrv1 maps a trunk
    output of shape [(N, C, H, W)] to logits of shape [(N, num_class)]
    exactly when [C * H * W] is the input width of its linear head, and
    raises [RuntimeError] at the head otherwise. *)
Theorem Net_forward_needs_head_width (model_name : string) (num_class : nat)
    (load_state_dict : Linear.Net → result ()) (self : Linear.Net)
    (training : bool) (N C H W : nat) :
  Linear.Net__init__ model_name num_class load_state_dict = Ok self →
  model_name ≠ "simclrv2" →
  Net_forward self training [N; C; H; W]
    = if bool_decide (C * H * W = Linear.in_features (Linear.fc self))
      then Ok [N; num_class]
      else Raise RuntimeError.
Proof.
  intros Hinit Hname. unfold Linear.Net__init__ in Hinit.
  destruct (String.eqb_spec model_name "simclrv2") as [|_]; [done|].
  repeat match type of Hinit with
         | context [String.eqb model_name ?tag] =>
             destruct (String.eqb model_name tag)
         end;
    cbn [mbind result_bind] in Hinit;
    try discriminate;
    match type of Hinit with
    | context [load_state_dict ?net] => destruct (load_state_dict net)
    end;
    cbn [mbind result_bind] in Hinit; simplify_eq;
    unfold Net_forward; cbn [Linear.f Linear.fc Linear.in_features
                             Linear.out_features mbind result_bind];
    rewrite flatten_4d; cbn [mbind result_bind];
    by rewrite Linear_forward_2d.
Qed.

Lemma Net_forward_needs_head_width_witness :
  Net_forward
    {| Linear.f := Linear.MoCov1_encoder_q_f;
       Linear.fc := {| Linear.in_features := 512; Linear.out_features := 10;
                       Linear.bias := true |} |}
    true [512; 512; 1; 1]
    = if bool_decide (512 * 1 * 1 = 512) then Ok [512; 10] else Raise RuntimeError.
Proof.
  apply (Net_forward_needs_head_width "mocov1" 10 (λ _, Ok ())); [reflexivity|].
  discriminate.
Defined.

(** X10. A [Net] built with the tag simclrv2 never returns from [forward]
    on a four-dimensional trunk output: its encoder applies the first
    projection stage to the trunk output as it is, so the linear layer of
    that stage raises [RuntimeError] unless the last dimension is 2048,
    and then its one-dimensional batch normalisation raises [ValueError]
    on the four-dimensional result. *)
Theorem Net_simclrv2_forward_raises (num_class : nat)
    (load_state_dict : Linear.Net → result ()) (self : Linear.Net)
    (training : bool) (N C H W : nat) :
  Linear.Net__init__ "simclrv2" num_class load_state_dict = Ok self →
  Net_forward self training [N; C; H; W]
    = if bool_decide (W = 2048) then Raise ValueError else Raise RuntimeError.
Proof.
  intros Hinit. unfold Linear.Net__init__ in Hinit. simpl in Hinit.
  destruct (load_state_dict _); cbn [mbind result_bind] in Hinit; simplify_eq.
  unfold Net_forward, SimCLRv2_g1, Linear_forward.
  cbn [Linear.f Linear.fc last removelast app].
  case_bool_decide; reflexivity.
Qed.

Lemma Net_simclrv2_forward_raises_witness :
  Net_forward
    {| Linear.f := Linear.SimCLRv2_f_g1;
       Linear.fc := {| Linear.in_features := 1024; Linear.out_features := 10;
                       Linear.bias := true |} |}
    false [512; 2048; 1; 1]
    = if bool_decide (1 = 2048) then Raise ValueError else Raise RuntimeError.
Proof.
  apply (Net_simclrv2_forward_raises 10 (λ _, Ok ())). reflexivity.
Defined.

(** X11. [SplitBatchNorm.forward] on an input [(N, C, H, W)] with
    [C = num_features], for positive sizes, a batch that is not empty and
    a positive number of splits: in evaluation mode it returns the input shape for every batch
    size; in training mode it raises [RuntimeError] at the first view when
    the number of splits does not divide the batch size, and otherwise
    returns the input shape, unless a split holds a single value per
    channel, which raises [ValueError]. *)
Theorem SplitBatchNorm_needs_divisible_batch (num_features num_splits : nat)
    (N H W : nat) :
  0 < num_features → 0 < num_splits → 0 < N → 0 < H → 0 < W →
  SplitBatchNorm_forward num_features num_splits false N num_features H W
    = Ok (N, num_features, H, W) ∧
  (N mod num_splits ≠ 0 →
   SplitBatchNorm_forward num_features num_splits true N num_features H W
     = Raise RuntimeError) ∧
  (N mod num_splits = 0 →
   SplitBatchNorm_forward num_features num_splits true N num_features H W
     = if bool_decide (N / num_splits * (H * W) = 1) then Raise ValueError
       else Ok (N, num_features, H, W)).
Proof.
  intros Hnf Hs _ HH HW. unfold SplitBatchNorm_forward, view_infer.
  split; [by rewrite bool_decide_eq_true_2|].
  set (c := num_features * H * W).
  assert (0 < c) as Hc by (unfold c; nia).
  replace (N * num_features * H * W) with (N * c) by (unfold c; lia).
  replace (num_features * num_splits * H * W) with (num_splits * c)
    by (unfold c; lia).
  clearbody c.
  rewrite (bool_decide_eq_false_2 (num_splits * c = 0)) by nia.
  rewrite Nat.Div0.mul_mod_distr_r.
  rewrite Nat.Div0.div_mul_cancel_r by lia.
  split.
  - intros Hdiv.
    rewrite (bool_decide_eq_false_2 (N mod num_splits * c = 0)); [reflexivity|].
    intros [Hz|Hz]%Nat.eq_mul_0; [done|lia].
  - intros Hdiv. rewrite Hdiv. cbn [Nat.mul].
    rewrite (bool_decide_eq_true_2 (0 = 0)) by done. cbn [mbind result_bind].
    case_bool_decide; [done|]. by rewrite bool_decide_eq_true_2.
Qed.

Lemma SplitBatchNorm_needs_divisible_batch_witness :
  SplitBatchNorm_forward 64 8 false 100 64 32 32 = Ok (100, 64, 32, 32) ∧
  SplitBatchNorm_forward 64 8 true 100 64 32 32 = Raise RuntimeError ∧
  SplitBatchNorm_forward 64 8 true 256 64 32 32
    = if bool_decide (256 / 8 * (32 * 32) = 1) then Raise ValueError
      else Ok (256, 64, 32, 32).
Proof.
  destruct (SplitBatchNorm_needs_divisible_batch 64 8 100 32 32)
    as (Heval & Hbad & _); [lia..|].
  destruct (SplitBatchNorm_needs_divisible_batch 64 8 256 32 32)
    as (_ & _ & Hgood); [lia..|].
  split; [exact Heval|]. split.
  - apply Hbad. discriminate.
  - apply Hgood. reflexivity.
Defined.

(** X12. The trunk a constructor builds from the named children of a
    ResNet contains no linear layer and no max-pooling layer; a child
    named conv1 always appears in it as the 3x3, stride 1, padding 1
    convolution from 3 to 64 channels without bias, whatever module it
    was; every other child that is neither linear nor max-pooling is
    kept, and the order of the children is kept. *)
Theorem trunk_children (named_children : list (string * layer)) :
  (∀ module, module ∈ trunk named_children →
     module ≠ MaxPool2d ∧ ∀ i o, module ≠ LinearLayer i o) ∧
  (∀ before module after,
     named_children = before ++ ("conv1", module) :: after →
     trunk named_children
       = trunk before ++ Conv2d 3 64 3 1 1 false :: trunk after) ∧
  (∀ before name module after,
     named_children = before ++ (name, module) :: after →
     name ≠ "conv1" →
     trunk named_children
       = trunk before
         ++ match module with
            | LinearLayer _ _ | MaxPool2d => []
            | _ => [module]
            end
         ++ trunk after).
Proof.
  split; [|split].
  - intros module Hin. unfold trunk in Hin.
    apply list_elem_of_omap in Hin as ([name module0] & _ & Hkeep).
    destruct (String.eqb name "conv1"); simplify_eq/=; [done|].
    destruct module0; simplify_eq/=; done.
  - intros before module after ->. unfold trunk. by rewrite omap_app.
  - intros before name module after -> Hname. unfold trunk.
    rewrite omap_app. cbn [omap list_omap].
    apply String.eqb_neq in Hname. rewrite Hname. by destruct module.
Qed.

Lemma trunk_children_witness :
  trunk [("conv1", OtherLayer 0); ("bn1", OtherLayer 1);
         ("maxpool", MaxPool2d); ("layer1", OtherLayer 2);
         ("fc", LinearLayer 512 128)]
    = trunk [] ++ Conv2d 3 64 3 1 1 false
        :: trunk [("bn1", OtherLayer 1); ("maxpool", MaxPool2d);
                  ("layer1", OtherLayer 2); ("fc", LinearLayer 512 128)] ∧
  trunk [("conv1", OtherLayer 0); ("bn1", OtherLayer 1);
         ("maxpool", MaxPool2d); ("layer1", OtherLayer 2);
         ("fc", LinearLayer 512 128)]
    = trunk [("conv1", OtherLayer 0); ("bn1", OtherLayer 1)]
        ++ [] ++ trunk [("layer1", OtherLayer 2); ("fc", LinearLayer 512 128)].
Proof.
  destruct (trunk_children [("conv1", OtherLayer 0); ("bn1", OtherLayer 1);
                            ("maxpool", MaxPool2d); ("layer1", OtherLayer 2);
                            ("fc", LinearLayer 512 128)])
    as (_ & Hconv & Hother).
  split.
  - apply (Hconv [] (OtherLayer 0)). reflexivity.
  - apply (Hother [("conv1", OtherLayer 0); ("bn1", OtherLayer 1)]
             "maxpool" MaxPool2d); [reflexivity|discriminate].
Defined.
End EvaluationNetworkShapes.

(** ** linear.py: one epoch of [train_val] *)

Section Epoch.
Import Linear.
Context {F : Type} `{Scalar F} {net data optimizer : Type}.
Variable set_training : bool → net → net.
Variable evaluate : net → data → result (F * F * F * nat) * net.
Variable optimize : optimizer → net → data → result () * (optimizer * net).





(** While every forward pass, loss and optimizer step returns, a loop
    entered with a positive count returns, with a count that has not
    decreased. *)
Lemma batches_loop_counted (l : list data) :
  (∀ n d, d ∈ l → is_ok (evaluate n d).1 = true) →
  (∀ o n d, d ∈ l → is_ok (optimize o n d).1 = true) →
  ∀ (net0 : net) (train_optimizer : option optimizer) (acc : totals),
    0 < total_num acc →
    ∃ t after,
      batches_loop evaluate optimize net0 train_optimizer l acc = (Ok t, after) ∧
      total_num acc ≤ total_num t.
Proof.
  induction l as [|d l IH]; intros Heval Hopt net0 train_optimizer acc Hacc.
  - by exists acc, (net0, train_optimizer).
  - cbn [batches_loop]. unfold batch_step.
    pose proof (Heval net0 d (list_elem_of_here _ _)) as Hd.
    destruct (evaluate net0 d) as [[[[[loss correct_1] correct_5] n]|e'] net1];
      [|done].
    assert (∀ o1 net2 (acc1 : totals),
              total_num acc1 = total_num acc + n →
              ∃ t after,
                (if bool_decide (total_num acc1 = 0) then
                   (Raise ZeroDivisionError, (net2, o1))
                 else batches_loop evaluate optimize net2 o1 l acc1)
                  = (Ok t, after) ∧
                total_num acc ≤ total_num t) as Hrest.
    { intros o1 net2 acc1 Hacc1. rewrite bool_decide_eq_false_2 by lia.
      destruct (IH (λ n' d' Hd', Heval n' d' (list_elem_of_further _ _ _ Hd'))
                   (λ o' n' d' Hd', Hopt o' n' d' (list_elem_of_further _ _ _ Hd'))
                   net2 o1 acc1) as (t & after & Hloop & Hle); [lia|].
      exists t, after. split; [done|lia]. }
    destruct train_optimizer as [o|].
    + pose proof (Hopt o net1 d (list_elem_of_here _ _)) as Ho.
      destruct (optimize o net1 d) as [[[]|e'] [o' net2]]; [|done].
      by apply Hrest.
    + by apply Hrest.
Qed.

End Epoch.

Section EpochStatistics.
Import Linear Evaluation.
Context {F : Type} `{Scalar F} {net sample optimizer : Type}.
Variable set_training : bool → net → net.
Variable net_forward : net → list sample → result (list (list F)) * net.
Variable loss_criterion : list (list F) → list nat → result F.
Variable argsort_descending : list F → list nat.
Variable optimize :
  optimizer → net → list sample * list nat → result () * (optimizer * net).

Lemma evaluate_batch_count (net0 : net) (data0 : list sample)
    (target : list nat) :
  is_ok (evaluate_batch net_forward loss_criterion argsort_descending net0
           (data0, target)).1 = true →
  ∃ loss correct_1 correct_5 net1,
    evaluate_batch net_forward loss_criterion argsort_descending net0
      (data0, target)
      = (Ok (loss, correct_1, correct_5, length data0), net1).
Proof.
  unfold evaluate_batch.
  destruct (net_forward net0 data0) as [[out|e] net1]; [|done].
  destruct (loss_criterion out target) as [loss|e]; [|done].
  intros _. eauto.
Qed.

(** X14. Let the forward pass, the loss and the optimizer step return on
    every batch of the loader. An epoch of [train_val], in training or
    in evaluation, raises [ZeroDivisionError] when the loader is empty
    (at the division of the return statement) and when its first batch
    is empty (at the division of the progress text after that batch),
    and returns its statistics otherwise, whatever the sizes of the
    later batches: it returns exactly when the loader has a first batch
    that holds a sample. *)
Theorem train_val_zero_division (net0 : net)
    (data_loader : list (list sample * list nat))
    (train_optimizer : option optimizer) :
  (∀ n d, d ∈ data_loader →
     is_ok (evaluate_batch net_forward loss_criterion argsort_descending
              n d).1 = true) →
  (∀ o n d, d ∈ data_loader → is_ok (optimize o n d).1 = true) →
  let out :=
    train_val set_training
      (evaluate_batch net_forward loss_criterion argsort_descending)
      optimize net0 data_loader train_optimizer in
  (data_loader = [] → out.1 = Raise ZeroDivisionError) ∧
  (∀ target rest, data_loader = ([], target) :: rest →
     out.1 = Raise ZeroDivisionError) ∧
  (∀ x data0 target rest, data_loader = (x :: data0, target) :: rest →
     is_ok out.1 = true) ∧
  (is_ok out.1 = true ↔
   ∃ x data0 target rest, data_loader = (x :: data0, target) :: rest).
Proof.
  intros Heval Hopt out.
  assert (data_loader = [] → out.1 = Raise ZeroDivisionError) as Hempty.
  { intros ->. reflexivity. }
  assert (∀ data0 target rest, data_loader = (data0, target) :: rest →
            (data0 = [] → out.1 = Raise ZeroDivisionError) ∧
            (data0 ≠ [] → is_ok out.1 = true)) as Hfirst.
  { intros data0 target rest ->. unfold out, train_val. cbv zeta.
    set (net1 := set_training _ net0).
    cbn [batches_loop]. unfold batch_step.
    pose proof (Heval net1 _ (list_elem_of_here _ _)) as Hd.
    apply evaluate_batch_count in Hd
      as (loss & correct_1 & correct_5 & net2 & ->).
    assert (∀ o1 net3,
              let r :=
                match
                  (if bool_decide (0 + length data0 = 0) then
                     (Raise ZeroDivisionError, (net3, o1))
                   else
                     batches_loop
                       (evaluate_batch net_forward loss_criterion
                          argsort_descending) optimize net3 o1 rest
                       {| total_num := 0 + length data0;
                          total_loss := s_add s_zero (s_mul loss (s_of_nat (length data0)));
                          total_correct_1 := s_add s_zero correct_1;
                          total_correct_5 := s_add s_zero correct_5 |})
                with
                | (Raise e, after) => (Raise e, after)
                | (Ok t, after) =>
                    if bool_decide (total_num t = 0) then
                      (Raise ZeroDivisionError, after)
                    else
                      (Ok (s_div (total_loss t) (s_of_nat (total_num t)),
                           s_mul (s_div (total_correct_1 t) (s_of_nat (total_num t)))
                             (s_of_nat 100),
                           s_mul (s_div (total_correct_5 t) (s_of_nat (total_num t)))
                             (s_of_nat 100)), after)
                end in
              (data0 = [] → r.1 = Raise ZeroDivisionError) ∧
              (data0 ≠ [] → is_ok r.1 = true)) as Hrest.
    { intros o1 net3 r. subst r. split.
      - intros ->. reflexivity.
      - intros Hne. assert (0 < length data0) as Hpos.
        { destruct data0; [done|simpl; lia]. }
        rewrite bool_decide_eq_false_2 by lia.
        destruct (batches_loop_counted
                    (evaluate_batch net_forward loss_criterion argsort_descending)
                    optimize rest
                    (λ n' d' Hd', Heval n' d' (list_elem_of_further _ _ _ Hd'))
                    (λ o' n' d' Hd', Hopt o' n' d' (list_elem_of_further _ _ _ Hd'))
                    net3 o1
                    {| total_num := 0 + length data0;
                       total_loss := s_add s_zero (s_mul loss (s_of_nat (length data0)));
                       total_correct_1 := s_add s_zero correct_1;
                       total_correct_5 := s_add s_zero correct_5 |})
          as (t & after & -> & Hle); [simpl; lia|].
        simpl in Hle. rewrite bool_decide_eq_false_2 by lia. done. }
    destruct train_optimizer as [o|].
    - pose proof (Hopt o net2 _ (list_elem_of_here _ _)) as Ho.
      destruct (optimize o net2 (data0, target)) as [[[]|e'] [o' net3]]; [|done].
      apply Hrest.
    - apply Hrest. }
  split; [done|]. split; [|split].
  - intros target rest Hl. by apply (Hfirst [] target rest).
  - intros x data0 target rest Hl. by apply (Hfirst (x :: data0) target rest).
  - split.
    + intros Hok. destruct data_loader as [|[[|x data0] target] rest].
      * by rewrite Hempty in Hok.
      * destruct (Hfirst [] target rest eq_refl) as [Hraise _].
        by rewrite Hraise in Hok.
      * eauto.
    + intros (x & data0 & target & rest & Hl).
      by apply (Hfirst (x :: data0) target rest).
Qed.

Lemma length_filter_mono {A} (P Q : A → Prop) `{∀ x, Decision (P x)}
    `{∀ x, Decision (Q x)} (l : list A) :
  (∀ x, P x → Q x) → length (filter P l) ≤ length (filter Q l).
Proof.
  intros HPQ. induction l as [|x l IH]; [done|].
  rewrite !filter_cons.
  destruct (decide (P x)) as [HP|HP]; destruct (decide (Q x)) as [HQ|HQ];
    simpl; try lia.
  exfalso. by apply HQ, HPQ.
Qed.

(** X15. For one batch with one row of scores per target, the number of
    top-1 hits is at most the number of top-5 hits, which is at most the
    number of samples, whatever [argsort] returns and whatever order it
    gives to equal scores. When every row has at most five classes,
    [argsort] returns each class index once and every target is a class
    index, every sample is a top-5 hit. *)
Theorem topk_hits_bounds (out : list (list F)) (target : list nat) :
  length out = length target →
  topk_hits argsort_descending 1 out target
    ≤ topk_hits argsort_descending 5 out target ∧
  topk_hits argsort_descending 5 out target ≤ length target ∧
  (Forall2 (λ row y, y < length row ∧ length row ≤ 5 ∧
                     argsort_descending row ≡ₚ seq 0 (length row)) out target →
   topk_hits argsort_descending 5 out target = length target).
Proof.
  intros Hrows. unfold topk_hits. split; [|split].
  - apply length_filter_mono. intros p Hin.
    apply list_elem_of_lookup_1 in Hin as [i Hi].
    apply lookup_take_Some in Hi as [Hi Hlt].
    apply list_elem_of_lookup_2 with i. apply lookup_take_Some. split; [done|lia].
  - etrans; [apply length_filter|]. rewrite length_zip_with. lia.
  - clear Hrows. induction 1 as [|row y out target (Hy & Hfew & Hperm) Hall IH]; [done|].
    cbn [zip zip_with]. rewrite filter_cons_True.
    + cbn [length]. by rewrite IH.
    + simpl. rewrite take_ge by (by rewrite Hperm, length_seq).
      rewrite Hperm. apply elem_of_seq. lia.
Qed.
End EpochStatistics.

(** ** Further worked instances *)

Section MoreInstances.
Import Examples MoreExamples.

Lemma queue4_well_formed : well_formed queue4.
Proof. split; [reflexivity|]. simpl. lia. Defined.

Lemma real4_well_formed : well_formed real4.
Proof. split; [reflexivity|]. simpl. lia. Defined.

(** Into four columns of width two: no key; three keys; two keys of
    width two; two keys of width three and, with the pointer at 2, four
    keys; two keys of width one, which are broadcast. *)
Lemma dequeue_and_enqueue_outcome_witness :
  MoCov1._dequeue_and_enqueue [] queue4 = (Raise ZeroDivisionError, queue4) ∧
  MoCov1._dequeue_and_enqueue keys3 queue4 = (Raise AssertionError, queue4) ∧
  is_ok (MoCov1._dequeue_and_enqueue keys2 queue4).1 = true ∧
  MoCov1._dequeue_and_enqueue wide2 queue4 = (Raise RuntimeError, queue4) ∧
  MoCov1._dequeue_and_enqueue keys4 (MoCov1._dequeue_and_enqueue keys2 queue4).2
    = (Raise RuntimeError, (MoCov1._dequeue_and_enqueue keys2 queue4).2) ∧
  queue (MoCov1._dequeue_and_enqueue narrow2 queue4).2
    = [[7%Q; 7%Q]; [8%Q; 8%Q]; [2%Q; 0%Q]; [3%Q; 0%Q]].
Proof.
  assert (of_width 2 (queue queue4)) as Hwq by repeat constructor.
  split; [|split; [|split; [|split; [|split]]]].
  - apply (dequeue_and_enqueue_outcome queue4 [] 2 2 queue4_well_formed Hwq);
      [constructor | reflexivity].
  - apply (dequeue_and_enqueue_outcome queue4 keys3 2 2 queue4_well_formed Hwq);
      [repeat constructor | simpl; lia | discriminate].
  - apply (dequeue_and_enqueue_outcome queue4 keys2 2 2 queue4_well_formed Hwq);
      [repeat constructor|].
    split; [simpl; lia|]. split; [reflexivity|]. split; [simpl; lia|]. by left.
  - apply (dequeue_and_enqueue_outcome queue4 wide2 2 3 queue4_well_formed Hwq);
      [repeat constructor | simpl; lia | reflexivity |].
    right. split; discriminate.
  - assert (well_formed (MoCov1._dequeue_and_enqueue keys2 queue4).2) as Hwf.
    { split; [reflexivity|]. simpl. lia. }
    apply (dequeue_and_enqueue_outcome _ keys4 2 2 Hwf);
      [repeat constructor | repeat constructor | simpl; lia | reflexivity |].
    left. simpl. lia.
  - destruct (dequeue_and_enqueue_outcome queue4 narrow2 2 1 queue4_well_formed
                Hwq ltac:(repeat constructor))
      as (_ & _ & _ & _ & Hbroadcast & _).
    rewrite Hbroadcast; [reflexivity | simpl; lia | reflexivity | simpl; lia
                        | reflexivity].
Defined.

(** A step, a raising step on views of three images, a backward pass. *)
Lemma queue_never_resized_witness :
  let self' :=
    run_events scale_net real4
      [Step view_a view_b [0] [0];
       Step views3_a views3_b [2; 0; 1] [0; 1; 2];
       Backward (λ _, [1%R; 1%R]) (λ _, [1%R; 1%R])] in
  well_formed self' ∧
  length (queue self') = length (queue real4) ∧
  K self' = K real4 ∧ m self' = m real4 ∧ T self' = T real4.
Proof.
  apply (queue_never_resized scale_net real4
           [Step view_a view_b [0] [0];
            Step views3_a views3_b [2; 0; 1] [0; 1; 2];
            Backward (λ _, [1%R; 1%R]) (λ _, [1%R; 1%R])]
           real4_well_formed).
Defined.


Lemma scale_pad_net_rows (ps : list (tensor R)) (x : list (list R)) :
  length (scale_pad_net ps x) = length x.
Proof. unfold scale_pad_net, scale_net. by rewrite !length_fmap. Defined.

Lemma scale_pad_net_width (ps : list (tensor R)) (x : list (list R)) :
  of_width 2 (scale_pad_net ps x).
Proof.
  unfold scale_pad_net. apply Forall_fmap, Forall_forall. intros row _.
  unfold compose. rewrite length_take, length_app. cbn [length]. lia.
Defined.

(** Two steps fill the four columns. *)
Lemma train_steps_fifo_witness :
  let out := train_steps scale_pad_net two_steps real4 in
  let keys := keys_of_steps scale_pad_net two_steps real4 in
  (∃ losses, out.1 = Ok losses ∧ length losses = 2) ∧
  Forall (λ ks, length ks = 2 * 1) keys ∧
  well_formed out.2 ∧
  queue_ptr out.2 = (0 + 2 * (2 * 1)) mod 4 ∧
  circular_view out.2 = drop (2 * (2 * 1)) (circular_view real4 ++ concat keys) ∧
  circular_view out.2 = drop (2 * (2 * 1) - 4) (concat keys).
Proof.
  destruct (train_steps_fifo scale_pad_net 2 scale_pad_net_rows
              scale_pad_net_width 1 two_steps real4)
    as (Hloss & Hkeys & Hwf & Hptr & Hview & Hfull);
    [exact real4_well_formed | repeat constructor | lia | reflexivity
    | reflexivity | |].
  { repeat constructor. }
  split; [exact Hloss|]. split; [exact Hkeys|]. split; [exact Hwf|].
  split; [exact Hptr|]. split; [exact Hview|]. apply Hfull. simpl. lia.
Defined.

Lemma scale_net_rowwise (ps : list (tensor R)) (x : list (list R))
    (idx : list nat) (rows : list (list R)) :
  index_rows x idx = Ok rows →
  index_rows (scale_net ps x) idx = Ok (scale_net ps rows).
Proof.
  rewrite !index_rows_Ok. unfold scale_net. intros Hall.
  apply Forall2_fmap_r. eapply Forall2_impl; [exact Hall|].
  intros i y Hy. simpl. by rewrite list_lookup_fmap, Hy.
Defined.

(** Two images, shuffled by the swap. *)
Lemma shuffle_invisible_for_rowwise_encoder_witness :
  MoCov1.contrastive_loss scale_net views_a views_b [1; 0] real4
    = MoCov1.contrastive_loss scale_net views_a views_b (seq 0 2) real4 ∧
  ∃ loss : R,
    MoCov1.contrastive_loss scale_net views_a views_b [1; 0] real4
      = (Ok (loss,
             MoCov1.encoder scale_net (encoder_q real4) views_a,
             MoCov1.encoder scale_net (encoder_k real4) views_b), real4).
Proof.
  apply (shuffle_invisible_for_rowwise_encoder scale_net scale_net_rowwise
           real4 views_a views_b [1; 0]); [reflexivity|].
  apply Permutation_swap.
Defined.


(** An empty loader; an empty batch followed by a batch of two samples;
    the same two batches in the other order. *)
Lemma train_val_zero_division_witness :
  (Linear.train_val (λ _ n, n)
     (Evaluation.evaluate_batch score_net target_score
        (argsort_descending_by Qle_bool))
     count_batch 0 [] None).1
    = Raise ZeroDivisionError ∧
  (Linear.train_val (λ _ n, n)
     (Evaluation.evaluate_batch score_net target_score
        (argsort_descending_by Qle_bool))
     count_batch 0 [([], []); (scores3, [1; 0])] (Some ())).1
    = Raise ZeroDivisionError ∧
  is_ok (Linear.train_val (λ _ n, n)
           (Evaluation.evaluate_batch score_net target_score
              (argsort_descending_by Qle_bool))
           count_batch 0 [(scores3, [1; 0]); ([], [])] (Some ())).1 = true.
Proof.
  split; [|split].
  - apply (train_val_zero_division (λ _ n, n) score_net target_score
             (argsort_descending_by Qle_bool) count_batch 0 [] None);
      [by intros n d Hd%elem_of_nil | by intros o n d Hd%elem_of_nil
      | reflexivity].
  - apply (proj1 (proj2 (train_val_zero_division (λ _ n, n) score_net
                           target_score (argsort_descending_by Qle_bool)
                           count_batch 0 [([], []); (scores3, [1; 0])] (Some ())
                           ltac:(intros n d Hd;
                                   apply elem_of_cons in Hd as [->|Hd];
                                   [reflexivity|];
                                   apply elem_of_cons in Hd as [->|Hd];
                                   [reflexivity|]; by apply elem_of_nil in Hd)
                           ltac:(reflexivity))) [] [(scores3, [1; 0])]).
    reflexivity.
  - apply (proj1 (proj2 (proj2 (train_val_zero_division (λ _ n, n) score_net
                           target_score (argsort_descending_by Qle_bool)
                           count_batch 0 [(scores3, [1; 0]); ([], [])] (Some ())
                           ltac:(intros n d Hd;
                                   apply elem_of_cons in Hd as [->|Hd];
                                   [reflexivity|];
                                   apply elem_of_cons in Hd as [->|Hd];
                                   [reflexivity|]; by apply elem_of_nil in Hd)
                           ltac:(reflexivity))))
             [(1 # 10)%Q; (7 # 10)%Q; (2 # 10)%Q]
             [[(5 # 10)%Q; (3 # 10)%Q; (2 # 10)%Q]] [1; 0] [([], [])]).
    reflexivity.
Defined.

(** Three classes: every sample is a top-5 hit. *)
Lemma topk_hits_bounds_witness :
  Evaluation.topk_hits (argsort_descending_by Qle_bool) 1 scores3 [2; 0]
    ≤ Evaluation.topk_hits (argsort_descending_by Qle_bool) 5 scores3 [2; 0] ∧
  Evaluation.topk_hits (argsort_descending_by Qle_bool) 5 scores3 [2; 0] = 2.
Proof.
  destruct (topk_hits_bounds (argsort_descending_by Qle_bool) scores3 [2; 0])
    as (Hle & _ & Hall); [reflexivity|].
  split; [exact Hle|]. apply Hall.
  repeat constructor; simpl; try lia.
  vm_compute.
  etrans; [apply perm_skip, Permutation_swap | apply Permutation_swap].
Defined.
End MoreInstances.
